(** * slack-mcp: credential lifecycle and authenticated dispatch

    A shallow embedding of the token-management and dispatch core of
    [src/slack.py] (module state [_token_state], [_get_token_type],
    [_load_token_from_env], [_save_tokens_to_env], [_refresh_token],
    [_get_token], [_is_user_token], [_post], [_get]) together with the
    properties the design document states about them.

    A string is a Python [str] in its UTF-8 encoding: prefix tests,
    concatenation and emptiness read the same on both sides.  A call is
    run to completion before the next one starts: the interleaving of
    coroutines is not part of the model.  The network is
    a pair of answer sequences, indexed by the number of requests the
    process has sent so far, and every statement below quantifies over
    them. *)

From Stdlib Require Import String Ascii List ZArith Bool Arith Lia.
From stdpp Require Import base option gmap strings.
From Equations Require Import Equations.
Import ListNotations.

Local Open Scope string_scope.
Local Open Scope list_scope.

Set Warnings "-register-all".

(** ** Python values *)

(** Decoded JSON ([resp.json()]).  Numbers are kept as integers; the code
    only ever asks a payload value for its truthiness and compares it with
    a string literal. *)
Inductive pyval : Type :=
| PNone
| PBool (b : bool)
| PInt (z : Z)
| PStr (s : string)
| PList (l : list pyval)
| PDict (d : gmap string pyval).

(** [bool(v)] *)
Definition truthy (v : pyval) : bool :=
  match v with
  | PNone => false
  | PBool b => b
  | PInt z => negb (Z.eqb z 0)
  | PStr s => negb (String.eqb s "")
  | PList l => match l with [] => false | _ :: _ => true end
  | PDict d => negb (bool_decide (d = ∅))
  end.

(** [v == "literal"]: only a [str] equals a [str]. *)
Definition py_eq_str (v : pyval) (lit : string) : bool :=
  match v with
  | PStr s => String.eqb s lit
  | _ => false
  end.

(** [d.get(k)]: the value, or [None] when the key is absent. *)
Definition dict_get (d : gmap string pyval) (k : string) : pyval :=
  default PNone (d !! k).

(** [bool(s)] for a [str]. *)
Definition nonempty (s : string) : bool := negb (String.eqb s "").

(** [a or b] on strings: [a] when it is truthy, otherwise [b]. *)
Definition str_or (a b : string) : string := if nonempty a then a else b.

(** [s.startswith(p)] *)
Definition startswith (s p : string) : bool := String.prefix p s.

(** [s.startswith((p1, p2, ...))] *)
Definition startswith_any (s : string) (ps : list string) : bool :=
  existsb (startswith s) ps.

(** ** Text and lines *)

Definition LF : ascii := "010"%char.
Definition CR : ascii := "013"%char.

(** The one-byte line boundaries of [str.splitlines] other than [\r]:
    [\n], [\v], [\f], [\x1c], [\x1d], [\x1e]. *)
Definition is_simple_break (c : ascii) : bool :=
  existsb (Ascii.eqb c)
    ["010"%char; "011"%char; "012"%char; "028"%char; "029"%char;
     "030"%char].

(** The length in bytes of the line boundary [s] starts with, [0] when
    it starts with none: [\r\n] before [\r], the one-byte boundaries,
    [\x85] (bytes C2 85), [\u2028] and [\u2029] (bytes E2 80 A8 and
    E2 80 A9). *)
Definition break_len (s : string) : nat :=
  match s with
  | EmptyString => 0
  | String c rest =>
      if Ascii.eqb c CR then
        match rest with
        | String c1 _ => if Ascii.eqb c1 LF then 2 else 1
        | EmptyString => 1
        end
      else if is_simple_break c then 1
      else if Ascii.eqb c "194"%char then
        match rest with
        | String c1 _ => if Ascii.eqb c1 "133"%char then 2 else 0
        | EmptyString => 0
        end
      else if Ascii.eqb c "226"%char then
        match rest with
        | String c1 (String c2 _) =>
            if Ascii.eqb c1 "128"%char
               && (Ascii.eqb c2 "168"%char || Ascii.eqb c2 "169"%char)
            then 3 else 0
        | _ => 0
        end
      else 0
  end.

(** [str.splitlines] with the line under construction [cur] and [skip]
    bytes of a boundary still to pass over: a boundary ends the current
    line, the end of the text ends it if it is not empty. *)
Fixpoint splitlines_go (skip : nat) (cur : string) (s : string)
    : list string :=
  match s with
  | EmptyString => if nonempty cur then [cur] else []
  | String c rest =>
      match skip with
      | S k => splitlines_go k cur rest
      | O =>
          match break_len s with
          | O => splitlines_go 0 (cur ++ String c "")%string rest
          | S k => cur :: splitlines_go k "" rest
          end
      end
  end.

(** [s.splitlines()] *)
Definition splitlines (s : string) : list string := splitlines_go 0 "" s.

(** ["\n".join(lines) + "\n"] *)
Definition join_lines (lines : list string) : string :=
  (String.concat (String LF "") lines ++ String LF "")%string.

(** ** Token classification *)

Definition _get_token_type (token : string) : string :=
  if startswith token "xoxb-" then "bot"
  else if startswith token "xoxp-" then "user"
  else if startswith token "xoxe.xoxp-" then "user_rotatable"
  else if startswith token "xoxe.xoxb-" then "bot_rotatable"
  else if startswith token "xapp-" then "app_level"
  else "unknown".

(** ** Process state *)

(** The module-level dict [_token_state].  It is created with the two keys
    ["access_token"] and ["refresh_token"] and the code only ever reads and
    assigns these two keys, so a two-field record holds it. *)
Record TokenState : Type := mkTokenState {
  access_token : string;
  refresh_token : string
}.

(** Requests handed to [httpx.AsyncClient]. *)
Inductive Request : Type :=
| HttpPostJson (url : string) (headers : list (string * string))
    (json : gmap string pyval)
| HttpGet (url : string) (headers : list (string * string))
    (params : gmap string pyval)
| HttpPostForm (url : string) (data : list (string * string)).

(** Exceptions that can leave the modelled functions. *)
Inductive exn : Type :=
| ValueError (msg : string)     (* raised by [_get_token] *)
| TransportError                (* [client.post] / [client.get] fails *)
| JSONDecodeError               (* [resp.json()] on a body that is not JSON *)
| AttributeError                (* [data.get] on JSON that is not an object *)
| OSError                       (* a file operation fails *)
| UnicodeError.                 (* the file's bytes do not decode *)

(** The file [ENV_FILE] as the code can find it: absent; present but
    [read_text] raises [e]; present and readable with text [text] but
    [write_text] raises [e] (and leaves it as it is); present, readable
    and writable.  [text] is what [read_text] yields up to the
    translation of [\r] and [\r\n] into [\n], which [splitlines] does
    not see. *)
Inductive EnvFile : Type :=
| Missing
| Unreadable (e : exn)
| ReadOnly (text : string) (e : exn)
| Writable (text : string).

(** Everything the code reads or writes besides its arguments.
    - [environ]: the process environment behind [os.getenv];
    - [env_file]: the file [ENV_FILE] (see [EnvFile]);
    - [stdout]: the lines printed so far;
    - [sent]: the requests issued so far, oldest first. *)
Record World : Type := mkWorld {
  _token_state : TokenState;
  environ : gmap string string;
  env_file : EnvFile;
  stdout : list string;
  sent : list Request
}.

Definition set_token_state (ts : TokenState) (w : World) : World :=
  mkWorld ts (environ w) (env_file w) (stdout w) (sent w).

Definition set_env_file (f : EnvFile) (w : World) : World :=
  mkWorld (_token_state w) (environ w) f (stdout w) (sent w).

Definition add_stdout (line : string) (w : World) : World :=
  mkWorld (_token_state w) (environ w) (env_file w) (stdout w ++ [line]) (sent w).

Definition add_sent (r : Request) (w : World) : World :=
  mkWorld (_token_state w) (environ w) (env_file w) (stdout w) (sent w ++ [r]).

Inductive Outcome (A : Type) : Type :=
| Returned (a : A)
| Raised (e : exn).
Arguments Returned {A} a.
Arguments Raised {A} e.

(** A computation over the world that returns or raises. *)
Definition M (A : Type) : Type := World -> Outcome A * World.

Definition ret {A} (a : A) : M A := fun w => (Returned a, w).
Definition raise {A} (e : exn) : M A := fun w => (Raised e, w).
Definition bind {A B} (m : M A) (k : A -> M B) : M B :=
  fun w => match m w with
           | (Returned a, w1) => k a w1
           | (Raised e, w1) => (Raised e, w1)
           end.
Definition gets {A} (f : World -> A) : M A := fun w => (Returned (f w), w).
Definition modify (f : World -> World) : M unit := fun w => (Returned tt, f w).

Declare Scope py_scope.
Delimit Scope py_scope with py.
Notation "x <- m ;; k" := (bind m (fun x => k))
  (at level 20, m at level 99, k at level 200, only parsing) : py_scope.
Notation "m ;; k" := (bind m (fun _ => k))
  (at level 100, k at level 200, only parsing, right associativity) : py_scope.
Local Open Scope py_scope.

(** [os.getenv(name, "")] *)
Definition getenv (env : gmap string string) (name : string) : string :=
  default "" (env !! name).

(** The expression both the initialiser of [_token_state] and
    [_load_token_from_env] use for the access token. *)
Definition env_access_token (env : gmap string string) : string :=
  str_or (getenv env "SLACK_TOKEN")
    (str_or (getenv env "SLACK_BOT_TOKEN") (getenv env "SLACK_USER_TOKEN")).

Definition env_refresh_token (env : gmap string string) : string :=
  getenv env "SLACK_REFRESH_TOKEN".

(** The value [_token_state] is bound to when the module is loaded. *)
Definition initial_token_state (env : gmap string string) : TokenState :=
  {| access_token := env_access_token env;
     refresh_token := env_refresh_token env |}.

(** The world right after import: nothing printed, nothing sent. *)
Definition initial_world (env : gmap string string)
    (file : EnvFile) : World :=
  mkWorld (initial_token_state env) env file [] [].

(** ** Token management *)

Definition _load_token_from_env : M unit :=
  env <- gets environ ;;
  modify (fun w => set_token_state
     {| access_token := env_access_token env;
        refresh_token := refresh_token (_token_state w) |} w) ;;
  modify (fun w => set_token_state
     {| access_token := access_token (_token_state w);
        refresh_token := env_refresh_token env |} w).

Definition access_prefixes : list string :=
  ["SLACK_TOKEN="; "SLACK_BOT_TOKEN="; "SLACK_USER_TOKEN="].

(** Loop state of [_save_tokens_to_env]. *)
Record SaveLoop : Type := mkSaveLoop {
  new_lines : list string;
  found_access : bool;
  found_refresh : bool
}.

(** One iteration of [for line in lines]. *)
Definition save_loop_body (access refresh : string)
    (st : SaveLoop) (line : string) : SaveLoop :=
  if startswith_any line access_prefixes then
    if negb (found_access st) then
      mkSaveLoop (new_lines st ++ [("SLACK_TOKEN=" ++ access)%string]) true (found_refresh st)
    else st
  else if startswith line "SLACK_REFRESH_TOKEN=" then
    mkSaveLoop (new_lines st ++ [("SLACK_REFRESH_TOKEN=" ++ refresh)%string])
      (found_access st) true
  else
    mkSaveLoop (new_lines st ++ [line]) (found_access st) (found_refresh st).

(** The list [new_lines] that is written back, from the lines read. *)
Definition rewrite_env_lines (access refresh : string)
    (lines : list string) : list string :=
  let st := fold_left (save_loop_body access refresh) lines
              (mkSaveLoop [] false false) in
  let nl1 := if negb (found_access st)
             then new_lines st ++ [("SLACK_TOKEN=" ++ access)%string]
             else new_lines st in
  if negb (found_refresh st) && nonempty refresh
  then nl1 ++ [("SLACK_REFRESH_TOKEN=" ++ refresh)%string]
  else nl1.

(** [ENV_FILE.exists()] *)
Definition ENV_FILE_exists : M bool :=
  gets (fun w => match env_file w with Missing => false | _ => true end).

(** [ENV_FILE.read_text()] *)
Definition ENV_FILE_read_text : M string :=
  fun w => match env_file w with
           | ReadOnly text _ | Writable text => (Returned text, w)
           | Unreadable e => (Raised e, w)
           | Missing => (Raised OSError, w)
           end.

(** [ENV_FILE.write_text(text)] *)
Definition ENV_FILE_write_text (text : string) : M unit :=
  fun w => match env_file w with
           | Writable _ => (Returned tt, set_env_file (Writable text) w)
           | Unreadable e | ReadOnly _ e => (Raised e, w)
           | Missing => (Raised OSError, w)
           end.

Definition _save_tokens_to_env (access refresh : string) : M unit :=
  modify (fun w => set_token_state
     {| access_token := access;
        refresh_token := refresh_token (_token_state w) |} w) ;;
  modify (fun w => set_token_state
     {| access_token := access_token (_token_state w);
        refresh_token := refresh |} w) ;;
  present <- ENV_FILE_exists ;;
  if present then
    content <- ENV_FILE_read_text ;;
    let lines := splitlines content in
    let new_lines := rewrite_env_lines access refresh lines in
    ENV_FILE_write_text (join_lines new_lines)
  else ret tt.

Definition token_missing_msg : string :=
  "Slack token not found. Set one of: SLACK_TOKEN, SLACK_BOT_TOKEN, or SLACK_USER_TOKEN".

Definition _get_token : M string :=
  token <- gets (fun w => access_token (_token_state w)) ;;
  token <- (if negb (nonempty token)
            then _load_token_from_env ;;
                 gets (fun w => access_token (_token_state w))
            else ret token) ;;
  if negb (nonempty token)
  then raise (ValueError token_missing_msg)
  else ret token.

(** [x in ("user", "user_rotatable")] *)
Definition in_user_kinds (token_type : string) : bool :=
  String.eqb token_type "user" || String.eqb token_type "user_rotatable".

Definition _is_user_token : M bool :=
  token <- _get_token ;;
  let token_type := _get_token_type token in
  ret (in_user_kinds token_type).

(** ** The platform *)

(** What one HTTP exchange can come to, in the order the code finds out:
    [await client.post(...)] raises or yields a response, [resp.json()]
    raises or yields a decoded value, and the first [data.get(...)] raises
    unless that value is an object. *)
Inductive JsonBody (A : Type) : Type :=
| NotObject
| Object (d : A).
Arguments NotObject {A}.
Arguments Object {A} d.

Inductive HttpBody (A : Type) : Type :=
| NotJson
| Json (j : JsonBody A).
Arguments NotJson {A}.
Arguments Json {A} j.

Inductive Exchange (A : Type) : Type :=
| TransportFailure
| Response (b : HttpBody A).
Arguments TransportFailure {A}.
Arguments Response {A} b.

(** The object [tooling.tokens.rotate] answers with, through the four keys
    [_refresh_token] reads.  [rot_ok] is [data.get("ok")]; the other three
    are strings when present, as the wire protocol has them. *)
Record RotateData : Type := mkRotateData {
  rot_ok : pyval;
  rot_token : option string;
  rot_refresh_token : option string;
  rot_error : option string
}.

Record TextContent : Type := mkTextContent {
  type_ : string;
  text : string
}.

Definition SlackResult : Type := list TextContent.

Definition SLACK_API_BASE : string := "https://slack.com/api".

(** [print(line)] *)
Definition print (line : string) : M unit := modify (add_stdout line).

(** [await client.post(...)] / [await client.get(...)]: the request goes
    out; the platform's answer to the n-th request of the process is
    [answers n]. *)
Definition client_send {A} (answers : nat -> Exchange A) (req : Request)
    : M (HttpBody A) :=
  fun w =>
    match answers (length (sent w)) with
    | TransportFailure => (Raised TransportError, add_sent req w)
    | Response b => (Returned b, add_sent req w)
    end.

(** [resp.json()] *)
Definition resp_json {A} (resp : HttpBody A) : M (JsonBody A) :=
  match resp with
  | NotJson => raise JSONDecodeError
  | Json j => ret j
  end.

(** The receiver check of [data.get]. *)
Definition as_object {A} (data : JsonBody A) : M A :=
  match data with
  | NotObject => raise AttributeError
  | Object d => ret d
  end.

(** [params or {}] *)
Definition params_or_empty (params : option (gmap string pyval))
    : gmap string pyval :=
  match params with
  | None => ∅
  | Some d => if truthy (PDict d) then d else ∅
  end.

(** [not data.get("ok") and data.get("error") == "token_expired"] *)
Definition token_expired (data : gmap string pyval) : bool :=
  negb (truthy (dict_get data "ok"))
  && py_eq_str (dict_get data "error") "token_expired".

Definition inspect {A} (a : A) : {b : A | a = b} := exist _ a eq_refl.

Section Dispatch.

(** [json.dumps(data, indent=2)] *)
Variable json_dumps : gmap string pyval -> string.

(** The platform: its answer to the n-th request, when that request is
    an API call and when it is a rotation call. *)
Variable api_answers : nat -> Exchange (gmap string pyval).
Variable rotate_answers : nat -> Exchange RotateData.

Definition _refresh_token : M bool :=
  refresh <- gets (fun w => refresh_token (_token_state w)) ;;
  if negb (nonempty refresh) then
    print "No refresh token available" ;;
    ret false
  else
    resp <- client_send rotate_answers
              (HttpPostForm (SLACK_API_BASE ++ "/tooling.tokens.rotate")%string
                 [("refresh_token", refresh)]) ;;
    data <- resp_json resp ;;
    data <- as_object data ;;
    if truthy (rot_ok data) then
      let new_access := default "" (rot_token data) in
      let new_refresh := default "" (rot_refresh_token data) in
      if nonempty new_access then
        _save_tokens_to_env new_access new_refresh ;;
        print "Token refreshed successfully" ;;
        ret true
      else ret false
    else
      print ("Token refresh failed: "
               ++ default "unknown error" (rot_error data))%string ;;
      ret false.

(** The value both [_post] and [_get] return. *)
Definition text_result (data : gmap string pyval) : SlackResult :=
  [mkTextContent "text" (json_dumps data)].

(** [_post] up to and including [data = resp.json()] and the receiver
    check of the first [data.get]. *)
Definition post_exchange (endpoint : string)
    (params : option (gmap string pyval)) : M (gmap string pyval) :=
  token <- _get_token ;;
  let headers :=
    [("Authorization", ("Bearer " ++ token)%string);
     ("Content-Type", "application/json; charset=utf-8")] in
  resp <- client_send api_answers
            (HttpPostJson (SLACK_API_BASE ++ "/" ++ endpoint)%string
               headers (params_or_empty params)) ;;
  data <- resp_json resp ;;
  as_object data.

Equations? _post (endpoint : string) (params : option (gmap string pyval))
    (retry_on_auth_fail : bool) (w : World)
    : Outcome SlackResult * World
    by wf (Nat.b2n retry_on_auth_fail) lt :=
  _post endpoint params retry_on_auth_fail w
    with post_exchange endpoint params w => {
    | (Raised e, w1) => (Raised e, w1)
    | (Returned data, w1)
        with inspect (token_expired data && retry_on_auth_fail) => {
        | exist _ true Hretry with _refresh_token w1 => {
            | (Returned true, w2) => _post endpoint params false w2
            | (Returned false, w2) => (Returned (text_result data), w2)
            | (Raised e, w2) => (Raised e, w2) }
        | exist _ false _ => (Returned (text_result data), w1) } }.
Proof.
  apply andb_prop in Hretry as [_ ->]. simpl. lia.
Qed.

(** [_get] up to and including [data = resp.json()] and the receiver
    check of the first [data.get]. *)
Definition get_exchange (endpoint : string)
    (params : option (gmap string pyval)) : M (gmap string pyval) :=
  token <- _get_token ;;
  let headers := [("Authorization", ("Bearer " ++ token)%string)] in
  resp <- client_send api_answers
            (HttpGet (SLACK_API_BASE ++ "/" ++ endpoint)%string
               headers (params_or_empty params)) ;;
  data <- resp_json resp ;;
  as_object data.

Equations? _get (endpoint : string) (params : option (gmap string pyval))
    (retry_on_auth_fail : bool) (w : World)
    : Outcome SlackResult * World
    by wf (Nat.b2n retry_on_auth_fail) lt :=
  _get endpoint params retry_on_auth_fail w
    with get_exchange endpoint params w => {
    | (Raised e, w1) => (Raised e, w1)
    | (Returned data, w1)
        with inspect (token_expired data && retry_on_auth_fail) => {
        | exist _ true Hretry with _refresh_token w1 => {
            | (Returned true, w2) => _get endpoint params false w2
            | (Returned false, w2) => (Returned (text_result data), w2)
            | (Raised e, w2) => (Raised e, w2) }
        | exist _ false _ => (Returned (text_result data), w1) } }.
Proof.
  apply andb_prop in Hretry as [_ ->]. simpl. lia.
Qed.

End Dispatch.

(** ** Tool wrappers *)

(** The wrappers that shape their parameters.  Each builds the dict
    [params] (a literal, then one item assignment per optional argument
    that is truthy) and hands it to [_post].  A keyword argument the
    caller leaves out is [None] here and takes the default of the
    signature.  The wrappers whose body is a single [_post] call on a
    fixed dict literal add nothing to this and are not listed. *)

Definition slack_list_conversations_params (types : string) (limit : Z)
    (cursor : string) (exclude_archived : bool) : gmap string pyval :=
  let params : gmap string pyval :=
    <["exclude_archived" := PBool exclude_archived]>
      (<["limit" := PInt limit]> {[ "types" := PStr types ]}) in
  if nonempty cursor then <["cursor" := PStr cursor]> params else params.

Definition slack_conversations_history_params (channel : string) (limit : Z)
    (cursor oldest latest : string) (inclusive : bool)
    : gmap string pyval :=
  let params : gmap string pyval :=
    <["inclusive" := PBool inclusive]>
      (<["limit" := PInt limit]> {[ "channel" := PStr channel ]}) in
  let params :=
    if nonempty cursor then <["cursor" := PStr cursor]> params else params in
  let params :=
    if nonempty oldest then <["oldest" := PStr oldest]> params else params in
  if nonempty latest then <["latest" := PStr latest]> params else params.

Definition slack_conversations_replies_params (channel ts : string)
    (limit : Z) (cursor oldest latest : string) (inclusive : bool)
    : gmap string pyval :=
  let params : gmap string pyval :=
    <["inclusive" := PBool inclusive]>
      (<["limit" := PInt limit]>
         (<["ts" := PStr ts]> {[ "channel" := PStr channel ]})) in
  let params :=
    if nonempty cursor then <["cursor" := PStr cursor]> params else params in
  let params :=
    if nonempty oldest then <["oldest" := PStr oldest]> params else params in
  if nonempty latest then <["latest" := PStr latest]> params else params.

Definition slack_conversations_members_params (channel : string) (limit : Z)
    (cursor : string) : gmap string pyval :=
  let params : gmap string pyval :=
    <["limit" := PInt limit]> {[ "channel" := PStr channel ]} in
  if nonempty cursor then <["cursor" := PStr cursor]> params else params.

Definition slack_conversations_open_params (users channel : string)
    (return_im : bool) : gmap string pyval :=
  let params : gmap string pyval := {[ "return_im" := PBool return_im ]} in
  let params :=
    if nonempty users then <["users" := PStr users]> params else params in
  if nonempty channel then <["channel" := PStr channel]> params else params.

Definition slack_chat_post_message_params (channel text thread_ts : string)
    (reply_broadcast unfurl_links unfurl_media : bool)
    : gmap string pyval :=
  let params : gmap string pyval :=
    <["unfurl_media" := PBool unfurl_media]>
      (<["unfurl_links" := PBool unfurl_links]>
         (<["text" := PStr text]> {[ "channel" := PStr channel ]})) in
  if nonempty thread_ts then
    <["reply_broadcast" := PBool reply_broadcast]>
      (<["thread_ts" := PStr thread_ts]> params)
  else params.

Definition slack_search_messages_params (query : string) (count : Z)
    (cursor sort sort_dir : string) : gmap string pyval :=
  let params : gmap string pyval :=
    <["sort_dir" := PStr sort_dir]>
      (<["sort" := PStr sort]>
         (<["count" := PInt count]> {[ "query" := PStr query ]})) in
  if nonempty cursor then <["cursor" := PStr cursor]> params else params.

Definition slack_users_list_params (limit : Z) (cursor : string)
    (include_locale : bool) : gmap string pyval :=
  let params : gmap string pyval :=
    <["include_locale" := PBool include_locale]> {[ "limit" := PInt limit ]} in
  if nonempty cursor then <["cursor" := PStr cursor]> params else params.

Definition slack_reminders_add_params (text time user : string)
    : gmap string pyval :=
  let params : gmap string pyval :=
    <["time" := PStr time]> {[ "text" := PStr text ]} in
  if nonempty user then <["user" := PStr user]> params else params.

Definition slack_files_list_params (channel user types : string)
    (count page : Z) : gmap string pyval :=
  let params : gmap string pyval :=
    <["page" := PInt page]> {[ "count" := PInt count ]} in
  let params :=
    if nonempty channel then <["channel" := PStr channel]> params
    else params in
  let params :=
    if nonempty user then <["user" := PStr user]> params else params in
  if nonempty types then <["types" := PStr types]> params else params.

Section Tools.

Variable json_dumps : gmap string pyval -> string.
Variable api_answers : nat -> Exchange (gmap string pyval).
Variable rotate_answers : nat -> Exchange RotateData.

(** [_post] with [retry_on_auth_fail] left at its default. *)
Definition post_default (endpoint : string)
    (params : option (gmap string pyval)) : M SlackResult :=
  _post json_dumps api_answers rotate_answers endpoint params true.

Definition slack_list_conversations (types : option string)
    (limit : option Z) (cursor : option string)
    (exclude_archived : option bool) : M SlackResult :=
  post_default "conversations.list"
    (Some (slack_list_conversations_params
             (default "public_channel,private_channel" types)
             (default 100%Z limit) (default "" cursor)
             (default true exclude_archived))).

Definition slack_conversations_history (channel : string)
    (limit : option Z) (cursor oldest latest : option string)
    (inclusive : option bool) : M SlackResult :=
  post_default "conversations.history"
    (Some (slack_conversations_history_params channel
             (default 100%Z limit) (default "" cursor) (default "" oldest)
             (default "" latest) (default true inclusive))).

Definition slack_conversations_replies (channel ts : string)
    (limit : option Z) (cursor oldest latest : option string)
    (inclusive : option bool) : M SlackResult :=
  post_default "conversations.replies"
    (Some (slack_conversations_replies_params channel ts
             (default 100%Z limit) (default "" cursor) (default "" oldest)
             (default "" latest) (default true inclusive))).

Definition slack_conversations_members (channel : string)
    (limit : option Z) (cursor : option string) : M SlackResult :=
  post_default "conversations.members"
    (Some (slack_conversations_members_params channel
             (default 100%Z limit) (default "" cursor))).

Definition slack_conversations_open (users channel : option string)
    (return_im : option bool) : M SlackResult :=
  post_default "conversations.open"
    (Some (slack_conversations_open_params (default "" users)
             (default "" channel) (default true return_im))).

Definition slack_chat_post_message (channel text : string)
    (thread_ts : option string)
    (reply_broadcast unfurl_links unfurl_media : option bool)
    : M SlackResult :=
  post_default "chat.postMessage"
    (Some (slack_chat_post_message_params channel text
             (default "" thread_ts) (default false reply_broadcast)
             (default true unfurl_links) (default true unfurl_media))).

Definition slack_search_messages (query : string) (count : option Z)
    (cursor sort sort_dir : option string) : M SlackResult :=
  post_default "search.messages"
    (Some (slack_search_messages_params query (default 20%Z count)
             (default "" cursor) (default "timestamp" sort)
             (default "desc" sort_dir))).

Definition slack_users_list (limit : option Z) (cursor : option string)
    (include_locale : option bool) : M SlackResult :=
  post_default "users.list"
    (Some (slack_users_list_params (default 100%Z limit)
             (default "" cursor) (default false include_locale))).

Definition slack_reminders_add (text time : string) (user : option string)
    : M SlackResult :=
  post_default "reminders.add"
    (Some (slack_reminders_add_params text time (default "" user))).

Definition slack_files_list (channel user types : option string)
    (count page : option Z) : M SlackResult :=
  post_default "files.list"
    (Some (slack_files_list_params (default "" channel) (default "" user)
             (default "" types) (default 20%Z count) (default 1%Z page))).

End Tools.

(** ** Vocabulary of the statements *)

(** The five prefixes, the rotatable ones first, as the design document
    asks a classifier to test them. *)
Definition classify_longest_first (token : string) : string :=
  if startswith token "xoxe.xoxp-" then "user_rotatable"
  else if startswith token "xoxe.xoxb-" then "bot_rotatable"
  else if startswith token "xoxb-" then "bot"
  else if startswith token "xoxp-" then "user"
  else if startswith token "xapp-" then "app_level"
  else "unknown".

(** The tests the rewriting loop applies to a line. *)
Definition is_access_line (line : string) : bool :=
  startswith_any line access_prefixes.

Definition is_refresh_line (line : string) : bool :=
  startswith line "SLACK_REFRESH_TOKEN=".

Definition is_unrelated_line (line : string) : bool :=
  negb (is_access_line line) && negb (is_refresh_line line).

(** The key of a [KEY=VALUE] line: the text before the first [=];
    [None] for a line without [=]. *)
Fixpoint line_key (line : string) : option string :=
  match line with
  | EmptyString => None
  | String c rest =>
      if Ascii.eqb c "=" then Some ""
      else option_map (String c) (line_key rest)
  end.

(** The line carries one of the keys [keys]. *)
Definition has_key (keys : list string) (line : string) : bool :=
  match line_key line with
  | Some k => existsb (String.eqb k) keys
  | None => false
  end.

(** The canonical access key with its legacy aliases, and all the
    credential keys. *)
Definition access_keys : list string :=
  ["SLACK_TOKEN"; "SLACK_BOT_TOKEN"; "SLACK_USER_TOKEN"].

Definition credential_keys : list string :=
  access_keys ++ ["SLACK_REFRESH_TOKEN"].

(** No [=] occurs in the string. *)
Fixpoint no_equals_sign (k : string) : bool :=
  match k with
  | EmptyString => true
  | String c rest => negb (Ascii.eqb c "=") && no_equals_sign rest
  end.

(** What the loop does to a line that carries no access key. *)
Definition keep_or_refresh (refresh : string) (line : string) : string :=
  if is_refresh_line line then ("SLACK_REFRESH_TOKEN=" ++ refresh)%string
  else line.

(** The first non-empty string of a list, the empty string if none. *)
Definition first_nonempty (sources : list string) : string :=
  match List.find nonempty sources with
  | Some s => s
  | None => ""
  end.

(** The access sources in the order they are consulted. *)
Definition access_sources (env : gmap string string) : list string :=
  [getenv env "SLACK_TOKEN"; getenv env "SLACK_BOT_TOKEN";
   getenv env "SLACK_USER_TOKEN"].

(** A pair is either fully empty or has a non-empty access credential. *)
Definition pair_ok (ts : TokenState) : Prop :=
  access_token ts = "" -> refresh_token ts = "".

(** API calls as opposed to rotation calls. *)
Definition is_api_call (r : Request) : bool :=
  match r with
  | HttpPostJson _ _ _ | HttpGet _ _ _ => true
  | HttpPostForm _ _ => false
  end.

Definition is_rotation_call (r : Request) : bool := negb (is_api_call r).

(** Counting the requests of a log by kind. *)
Definition api_calls (log : list Request) : nat :=
  length (List.filter is_api_call log).

Definition rotation_calls (log : list Request) : nat :=
  length (List.filter is_rotation_call log).

(** [w'] is [w] after sending at most [na] API calls and at most [nr]
    rotation calls. *)
Definition sends (w w' : World) (na nr : nat) : Prop :=
  exists new, sent w' = sent w ++ new
              /\ api_calls new <= na /\ rotation_calls new <= nr.

(** The requests the three senders build. *)
Definition rotate_request (refresh : string) : Request :=
  HttpPostForm (SLACK_API_BASE ++ "/tooling.tokens.rotate")%string
    [("refresh_token", refresh)].

Definition post_request (token endpoint : string)
    (params : option (gmap string pyval)) : Request :=
  HttpPostJson (SLACK_API_BASE ++ "/" ++ endpoint)%string
    [("Authorization", ("Bearer " ++ token)%string);
     ("Content-Type", "application/json; charset=utf-8")]
    (params_or_empty params).

Definition get_request (token endpoint : string)
    (params : option (gmap string pyval)) : Request :=
  HttpGet (SLACK_API_BASE ++ "/" ++ endpoint)%string
    [("Authorization", ("Bearer " ++ token)%string)]
    (params_or_empty params).

(** What an API exchange yields once the token is in hand: the request
    goes out and the answer is decoded. *)
Definition api_outcome (api_answers : nat -> Exchange (gmap string pyval))
    (req : Request) (w : World) : Outcome (gmap string pyval) * World :=
  match api_answers (length (sent w)) with
  | TransportFailure => (Raised TransportError, add_sent req w)
  | Response NotJson => (Raised JSONDecodeError, add_sent req w)
  | Response (Json NotObject) => (Raised AttributeError, add_sent req w)
  | Response (Json (Object d)) => (Returned d, add_sent req w)
  end.

(** The credential store: the pair in memory and the config file. *)
Definition store_unchanged (w w' : World) : Prop :=
  _token_state w' = _token_state w /\ env_file w' = env_file w.

(** A rotation answer that makes [_refresh_token] store a new pair. *)
Definition rotation_succeeds (d : RotateData) : bool :=
  truthy (rot_ok d) && nonempty (default "" (rot_token d)).

(** ** The process as a transition system *)

(** The entry points of the token and dispatch core. *)
Inductive Op : Type :=
| OpLoadTokenFromEnv
| OpGetToken
| OpIsUserToken
| OpRefreshToken
| OpPost (endpoint : string) (params : option (gmap string pyval))
    (retry_on_auth_fail : bool)
| OpGet (endpoint : string) (params : option (gmap string pyval))
    (retry_on_auth_fail : bool).

(** The world after running an entry point, whether it returned or
    raised. *)
Definition run_op (json_dumps : gmap string pyval -> string)
    (api_answers : nat -> Exchange (gmap string pyval))
    (rotate_answers : nat -> Exchange RotateData)
    (op : Op) (w : World) : World :=
  match op with
  | OpLoadTokenFromEnv => snd (_load_token_from_env w)
  | OpGetToken => snd (_get_token w)
  | OpIsUserToken => snd (_is_user_token w)
  | OpRefreshToken => snd (_refresh_token rotate_answers w)
  | OpPost endpoint params retry =>
      snd (_post json_dumps api_answers rotate_answers endpoint params retry w)
  | OpGet endpoint params retry =>
      snd (_get json_dumps api_answers rotate_answers endpoint params retry w)
  end.

(** The states a process started in environment [env] with config file
    [file] can be in. *)
Inductive reachable (json_dumps : gmap string pyval -> string)
    (api_answers : nat -> Exchange (gmap string pyval))
    (rotate_answers : nat -> Exchange RotateData)
    (env : gmap string string) (file : EnvFile)
    : World -> Prop :=
| reach_init :
    reachable json_dumps api_answers rotate_answers env file
      (initial_world env file)
| reach_step (w : World) (op : Op) :
    reachable json_dumps api_answers rotate_answers env file w ->
    reachable json_dumps api_answers rotate_answers env file
      (run_op json_dumps api_answers rotate_answers op w).

(** An environment that names a refresh token names an access token. *)
Definition env_pair_ok (env : gmap string string) : Prop :=
  first_nonempty (access_sources env) = "" ->
  getenv env "SLACK_REFRESH_TOKEN" = "".

(** The environment is the one the process started in and the pair is
    well formed. *)
Definition pair_inv (env : gmap string string) (w : World) : Prop :=
  environ w = env /\ pair_ok (_token_state w).

(** An environment that names a refresh token and nothing else. *)
Definition refresh_only_env : gmap string string :=
  {[ "SLACK_REFRESH_TOKEN" := "r-only" ]}.

(** ** Comparing the two verbs *)

(** The two verbs of the dispatcher. *)
Inductive Verb : Type :=
| GET
| POST.

(** The request of one attempt, written out: the URL of the endpoint, the
    bearer header with the credential, and the caller's mapping, empty
    when the caller passed none.  [POST] puts the mapping into a JSON body
    and names its content type, [GET] puts it into the query string. *)
Definition attempt_request (verb : Verb) (token endpoint : string)
    (params : option (gmap string pyval)) : Request :=
  let url := (SLACK_API_BASE ++ "/" ++ endpoint)%string in
  let bearer := ("Authorization", ("Bearer " ++ token)%string) in
  let mapping := default ∅ params in
  match verb with
  | POST =>
      HttpPostJson url
        [bearer; ("Content-Type", "application/json; charset=utf-8")]
        mapping
  | GET => HttpGet url [bearer] mapping
  end.

(** The expiry signal of an answer: its success flag is false (or absent,
    or anything else Python counts as false) and its error code is the
    string [token_expired]. *)
Definition expiry_signal (data : gmap string pyval) : bool :=
  match data !! "ok" with
  | None => true
  | Some flag => negb (truthy flag)
  end
  && match data !! "error" with
     | Some (PStr code) => String.eqb code "token_expired"
     | _ => false
     end.

(** A request of [_post] and a request of [_get] that differ in the verb
    and in where the parameters go (JSON body or query string), and in
    nothing else but the content-type header the body needs: the same
    URL, the same bearer header and no other, the same parameters.
    Rotation requests are the same on both sides. *)
Inductive same_call : Request -> Request -> Prop :=
| same_api_call (url token : string) (payload : gmap string pyval) :
    same_call
      (HttpPostJson url
         [("Authorization", ("Bearer " ++ token)%string);
          ("Content-Type", "application/json; charset=utf-8")]
         payload)
      (HttpGet url [("Authorization", ("Bearer " ++ token)%string)] payload)
| same_rotation_call (url : string) (data : list (string * string)) :
    same_call (HttpPostForm url data) (HttpPostForm url data).

(** Two worlds that differ at most in which requests were sent, not in
    how many. *)
Definition agree (wp wg : World) : Prop :=
  _token_state wp = _token_state wg
  /\ environ wp = environ wg
  /\ env_file wp = env_file wg
  /\ stdout wp = stdout wg
  /\ length (sent wp) = length (sent wg).

(** From agreeing worlds [wp], [wg] to agreeing worlds [wp'], [wg'] by
    sending corresponding requests. *)
Definition in_step (wp wg wp' wg' : World) : Prop :=
  agree wp' wg'
  /\ exists np ng, sent wp' = sent wp ++ np
                   /\ sent wg' = sent wg ++ ng
                   /\ Forall2 same_call np ng.

(** ** The dispatcher as a two-pass state machine *)

Section Dispatcher.

Variable json_dumps : gmap string pyval -> string.
Variable api_answers : nat -> Exchange (gmap string pyval).
Variable rotate_answers : nat -> Exchange RotateData.

(** One attempt: read the credential, send the one request, decode the
    answer. *)
Definition attempt (verb : Verb) (endpoint : string)
    (params : option (gmap string pyval)) : M (gmap string pyval) :=
  token <- _get_token ;;
  resp <- client_send api_answers
            (attempt_request verb token endpoint params) ;;
  data <- resp_json resp ;;
  as_object data.

(** The dispatcher of the design document (4.3), for either verb, as the
    attempt sequence it describes and without recursion.  The first
    attempt's answer is final unless it carries the expiry signal while a
    retry is still allowed; then the credential is rotated, and if the
    rotation returns true the call is attempted once more, with no retry
    left, so that the second answer is final whatever it says.  A
    rotation that returns false surfaces the first answer.  Every final
    answer is wrapped in the one text container. *)
Definition dispatch (verb : Verb) (endpoint : string)
    (params : option (gmap string pyval)) (retry_allowed : bool)
    : M SlackResult :=
  data <- attempt verb endpoint params ;;
  if expiry_signal data && retry_allowed then
    refreshed <- _refresh_token rotate_answers ;;
    if (refreshed : bool) then
      data2 <- attempt verb endpoint params ;;
      ret (text_result json_dumps data2)
    else ret (text_result json_dumps data)
  else ret (text_result json_dumps data).

End Dispatcher.

(** The end of a rotation that was granted the pair [access],
    [refresh]: persist, report, return [True], unless persisting
    raises. *)
Definition rotated (access refresh : string) (w : World)
    : Outcome bool * World :=
  match _save_tokens_to_env access refresh w with
  | (Returned _, w') =>
      (Returned true, add_stdout "Token refreshed successfully" w')
  | (Raised e, w') => (Raised e, w')
  end.

(** The file after a persist of [access], [refresh] that did not
    raise. *)
Definition persisted_file (access refresh : string) (f : EnvFile)
    : EnvFile :=
  match f with
  | Writable content =>
      Writable
        (join_lines (rewrite_env_lines access refresh (splitlines content)))
  | other => other
  end.

(** The exception a persist runs into: none when there is no file or
    when reading and writing it both work. *)
Definition file_failure (f : EnvFile) : option exn :=
  match f with
  | Missing | Writable _ => None
  | Unreadable e | ReadOnly _ e => Some e
  end.

(** No line boundary starts inside [cur] when [s] follows it. *)
Fixpoint no_break_before (cur s : string) : bool :=
  match cur with
  | EmptyString => true
  | String c rest =>
      Nat.eqb (break_len (cur ++ s)%string) 0 && no_break_before rest s
  end.

(** The string holds no line boundary of [str.splitlines]. *)
Definition no_break (s : string) : bool := no_break_before s "".

(** ** Vocabulary of the further properties *)

(** The loop of [_save_tokens_to_env] as a recursion over the lines:
    what it appends for [lines] when [found] is the current value of
    [found_access]. *)
Fixpoint rewritten (access refresh : string) (found : bool)
    (lines : list string) : list string :=
  match lines with
  | [] => []
  | line :: rest =>
      if is_access_line line then
        if found then rewritten access refresh true rest
        else ("SLACK_TOKEN=" ++ access)%string
             :: rewritten access refresh true rest
      else if is_refresh_line line then
        ("SLACK_REFRESH_TOKEN=" ++ refresh)%string
        :: rewritten access refresh found rest
      else line :: rewritten access refresh found rest
  end.

(** No value of the dict is the empty string, except possibly under one
    of the keys [required]. *)
Definition no_empty_value (required : list string)
    (d : gmap string pyval) : Prop :=
  forall k, d !! k = Some (PStr "") -> In k required.

(** Every request sent between [w] and [w'] satisfies [P]. *)
Definition only_sends (P : Request -> Prop) (w w' : World) : Prop :=
  exists new, sent w' = sent w ++ new /\ Forall P new.

(** The requests a call of [_post], respectively [_get], may send. *)
Definition post_call_of (endpoint : string)
    (params : option (gmap string pyval)) (r : Request) : Prop :=
  (exists token, r = post_request token endpoint params)
  \/ (exists refresh, r = rotate_request refresh).

Definition get_call_of (endpoint : string)
    (params : option (gmap string pyval)) (r : Request) : Prop :=
  (exists token, r = get_request token endpoint params)
  \/ (exists refresh, r = rotate_request refresh).

(** The request is a rotation request or a JSON POST whose body
    satisfies [Q]. *)
Definition posts_body (Q : gmap string pyval -> Prop) (r : Request) : Prop :=
  (exists url headers body, r = HttpPostJson url headers body /\ Q body)
  \/ (exists refresh, r = rotate_request refresh).

(** A rotation endpoint that refuses, and one that grants an access
    token without a new refresh token. *)
Definition rotation_refuses (n : nat) : Exchange RotateData :=
  Response (Json (Object
    (mkRotateData (PBool false) None None (Some "invalid_refresh_token")))).

Definition rotation_grants_access_only (n : nat) : Exchange RotateData :=
  Response (Json (Object (mkRotateData (PBool true) (Some "AAA") None None))).

(** A platform that cannot be reached. *)
Definition api_unreachable (n : nat) : Exchange (gmap string pyval) :=
  TransportFailure.

(** ** Sample inputs *)

(** A config file with two access aliases among unrelated lines. *)
Definition sample_lines : list string :=
  ["A=1"; "SLACK_BOT_TOKEN=old"; "B=2"; "SLACK_USER_TOKEN=old2"].

(** A process holding a rotatable pair, with that file on disk. *)
Definition sample_world : World :=
  mkWorld (mkTokenState "xoxe.xoxp-1" "r1") ∅
    (Writable (join_lines sample_lines)) [] [].

(** An access token that holds a line feed. *)
Definition line_break_token : string :=
  ("AAA" ++ String LF "SLACK_BOT_TOKEN=zzz")%string.

(** An access token whose second line carries no credential key. *)
Definition stray_line_token : string := ("AAA" ++ String LF "X=1")%string.

(** A process with a one-line config file. *)
Definition one_line_world : World :=
  mkWorld (mkTokenState "xoxe.xoxp-1" "r1") ∅
    (Writable (join_lines ["A=1"])) [] [].

(** A process holding a live pair, with an empty environment and no
    config file. *)
Definition loaded_world : World :=
  mkWorld (mkTokenState "xoxb-live" "r-live") ∅ Missing [] [].

(** A process with no credential anywhere. *)
Definition empty_world : World :=
  mkWorld (mkTokenState "" "") ∅ Missing [] [].

(** An environment that names a user token and nothing else. *)
Definition user_env : gmap string string :=
  {[ "SLACK_USER_TOKEN" := "xoxp-7" ]}.

(** A process whose store is empty while the environment is [user_env]. *)
Definition unloaded_world : World :=
  mkWorld (mkTokenState "" "") user_env Missing [] [].

(** The expiry answer [{"ok": false, "error": "token_expired"}]. *)
Definition expired_payload : gmap string pyval :=
  <["ok" := PBool false]> {[ "error" := PStr "token_expired" ]}.

(** A platform whose every API answer is the expiry answer. *)
Definition always_expired (n : nat) : Exchange (gmap string pyval) :=
  Response (Json (Object expired_payload)).

(** The answer [{"ok": true}]. *)
Definition ok_payload : gmap string pyval := {[ "ok" := PBool true ]}.

(** A platform that answers the first request of the process with the
    expiry answer and every later one with [{"ok": true}]. *)
Definition expired_once (n : nat) : Exchange (gmap string pyval) :=
  match n with
  | O => Response (Json (Object expired_payload))
  | S _ => Response (Json (Object ok_payload))
  end.

(** A platform that answers every API call with [{"ok": true}]. *)
Definition always_ok (n : nat) : Exchange (gmap string pyval) :=
  Response (Json (Object ok_payload)).

(** A rotation endpoint that cannot be reached, one that answers with a
    body that is not JSON, and one that hands out the pair (AAA, r2). *)
Definition rotation_unreachable (n : nat) : Exchange RotateData :=
  TransportFailure.

Definition rotation_garbled (n : nat) : Exchange RotateData :=
  Response NotJson.

Definition rotation_grants (n : nat) : Exchange RotateData :=
  Response (Json (Object
    (mkRotateData (PBool true) (Some "AAA") (Some "r2") None))).

(** A stand-in for [json.dumps] on the sample inputs. *)
Definition sample_dumps (data : gmap string pyval) : string :=
  if token_expired data then "{expired}" else "{other}".

(** A process holding a bot token and no refresh token. *)
Definition no_refresh_world : World :=
  mkWorld (mkTokenState "xoxb-live" "") ∅ Missing [] [].

(** ** Strings *)

Lemma nonempty_false (s : string) : nonempty s = false <-> s = "".
Proof.
  unfold nonempty. rewrite negb_false_iff. apply String.eqb_eq.
Qed.

Lemma nonempty_true (s : string) : nonempty s = true <-> s <> "".
Proof.
  unfold nonempty. rewrite negb_true_iff. apply String.eqb_neq.
Qed.

Lemma startswith_app (p : string) :
  forall s, startswith s p = true <-> exists t, s = (p ++ t)%string.
Proof.
  unfold startswith. induction p as [|c p IH]; intros s.
  - split; [intros _; exists s; reflexivity|].
    intros _. destruct s; reflexivity.
  - destruct s as [|c' s]; simpl.
    + split; [discriminate | intros [t Ht]; discriminate].
    + destruct (Ascii.ascii_dec c c') as [->|Hne].
      * rewrite IH. split; intros [t Ht]; exists t.
        -- subst s. reflexivity.
        -- change (String c' s = String c' (p ++ t)%string) in Ht. congruence.
      * split; [discriminate | intros [t Ht]].
        change (String c' s = String c (p ++ t)%string) in Ht. congruence.
Qed.

(** ** Lists *)

Lemma filter_snoc_false {A} (f : A -> bool) (l : list A) (x : A) :
  f x = false -> List.filter f (l ++ [x]) = List.filter f l.
Proof.
  intros H. rewrite List.filter_app. cbn [List.filter]. rewrite H.
  apply app_nil_r.
Qed.

Lemma filter_snoc_true {A} (f : A -> bool) (l : list A) (x : A) :
  f x = true -> List.filter f (l ++ [x]) = List.filter f l ++ [x].
Proof.
  intros H. rewrite List.filter_app. cbn [List.filter]. rewrite H.
  reflexivity.
Qed.

Lemma existsb_pointwise {A} (f g : A -> bool) (l : list A) :
  (forall x, f x = g x) -> existsb f l = existsb g l.
Proof.
  intros H. induction l as [|x l IH]; [reflexivity|].
  cbn [existsb]. rewrite H, IH. reflexivity.
Qed.

(** ** Classification *)

(** X5. The order of the tests does not matter: the classifier agrees
    on every string with the one that tests the two rotatable prefixes
    first. *)
Lemma classify_agrees (token : string) :
  _get_token_type token = classify_longest_first token.
Proof.
  unfold _get_token_type, classify_longest_first.
  destruct (startswith token "xoxe.xoxp-") eqn:E1.
  { apply startswith_app in E1 as [t ->]. reflexivity. }
  destruct (startswith token "xoxe.xoxb-") eqn:E2.
  { apply startswith_app in E2 as [t ->]. reflexivity. }
  reflexivity.
Qed.

(** C7. Every token that starts with [xoxe.xoxp-] is classified
    [user_rotatable] and not [user]; each of the five known prefixes is
    mapped to its kind, and a token with none of them to [unknown]. *)
Theorem classify_by_prefix (token : string) :
  (startswith token "xoxe.xoxp-" = true ->
     _get_token_type token = "user_rotatable"
     /\ _get_token_type token <> "user")
  /\ (startswith token "xoxe.xoxb-" = true ->
        _get_token_type token = "bot_rotatable")
  /\ (startswith token "xoxb-" = true -> _get_token_type token = "bot")
  /\ (startswith token "xoxp-" = true -> _get_token_type token = "user")
  /\ (startswith token "xapp-" = true -> _get_token_type token = "app_level")
  /\ (startswith token "xoxe.xoxp-" = false ->
      startswith token "xoxe.xoxb-" = false ->
      startswith token "xoxb-" = false ->
      startswith token "xoxp-" = false ->
      startswith token "xapp-" = false ->
      _get_token_type token = "unknown").
Proof.
  assert (Hcase : forall p, startswith token p = true ->
            exists t, token = (p ++ t)%string
                      /\ startswith (p ++ t)%string p = true).
  { intros p H. pose proof H as H'. apply startswith_app in H' as [t ->].
    exists t. split; [reflexivity | exact H]. }
  repeat split.
  - apply Hcase in H as (t & -> & H). unfold _get_token_type.
    rewrite H. reflexivity.
  - apply Hcase in H as (t & -> & H). unfold _get_token_type.
    rewrite H. discriminate.
  - intros H. apply Hcase in H as (t & -> & H). unfold _get_token_type.
    rewrite H. reflexivity.
  - intros H. apply Hcase in H as (t & -> & H). unfold _get_token_type.
    rewrite H. reflexivity.
  - intros H. apply Hcase in H as (t & -> & H). unfold _get_token_type.
    rewrite H. reflexivity.
  - intros H. apply Hcase in H as (t & -> & H). unfold _get_token_type.
    rewrite H. reflexivity.
  - intros H1 H2 H3 H4 H5. unfold _get_token_type.
    rewrite H1, H2, H3, H4, H5. reflexivity.
Qed.

Lemma classify_by_prefix_witness :
  _get_token_type "xoxe.xoxp-1-abc" = "user_rotatable"
  /\ _get_token_type "xoxe.xoxp-1-abc" <> "user".
Proof.
  apply (proj1 (classify_by_prefix "xoxe.xoxp-1-abc")). reflexivity.
Defined.

(** ** Splitting text into lines *)

Lemma string_app_cons (c : ascii) (s t : string) :
  (String c s ++ t)%string = String c (s ++ t)%string.
Proof. reflexivity. Qed.

Lemma string_app_nil_l (t : string) : ("" ++ t)%string = t.
Proof. reflexivity. Qed.

Lemma string_app_nil_r (s : string) : (s ++ "")%string = s.
Proof.
  induction s as [|c s IH]; [reflexivity|].
  rewrite string_app_cons, IH. reflexivity.
Qed.

Lemma string_app_assoc (s t u : string) :
  ((s ++ t) ++ u)%string = (s ++ (t ++ u))%string.
Proof.
  induction s as [|c s IH]; [reflexivity|].
  rewrite !string_app_cons, IH. reflexivity.
Qed.

Lemma string_snoc_app (s : string) (c : ascii) (t : string) :
  ((s ++ String c "") ++ t)%string = (s ++ String c t)%string.
Proof. rewrite string_app_assoc. reflexivity. Qed.

(** A boundary that starts [u] with something after it starts [u]
    alone only if it lies within [u]: a text with no boundary at its
    start has none at the start of any of its prefixes. *)
Lemma break_len_prefix (u s : string) :
  break_len (u ++ s)%string = 0 -> break_len u = 0.
Proof.
  destruct u as [|c u]; [reflexivity|].
  rewrite string_app_cons. unfold break_len.
  destruct (Ascii.eqb c CR).
  { destruct u as [|c1 u]; [|rewrite string_app_cons].
    - destruct s as [|c1 s]; [discriminate|].
      rewrite string_app_nil_l. destruct (Ascii.eqb c1 LF); discriminate.
    - destruct (Ascii.eqb c1 LF); discriminate. }
  destruct (is_simple_break c); [discriminate|].
  destruct (Ascii.eqb c "194").
  { destruct u as [|c1 u]; [reflexivity|]. rewrite string_app_cons.
    intros H; exact H. }
  destruct (Ascii.eqb c "226"); [|reflexivity].
  destruct u as [|c1 [|c2 u]]; [reflexivity | reflexivity |].
  rewrite !string_app_cons. intros H; exact H.
Qed.

(** A line feed after [u] creates no boundary at the start of [u]. *)
Lemma break_len_before_lf (u t : string) :
  u <> "" -> break_len u = 0 -> break_len (u ++ String LF t)%string = 0.
Proof.
  destruct u as [|c u]; [congruence|]. intros _.
  rewrite string_app_cons. unfold break_len.
  destruct (Ascii.eqb c CR).
  { destruct u as [|c1 u]; [discriminate|].
    destruct (Ascii.eqb c1 LF); discriminate. }
  destruct (is_simple_break c); [discriminate|].
  destruct (Ascii.eqb c "194").
  { destruct u as [|c1 u]; [reflexivity|]. rewrite string_app_cons.
    intros H; exact H. }
  destruct (Ascii.eqb c "226"); [|reflexivity].
  destruct u as [|c1 [|c2 u]].
  - rewrite string_app_nil_l. destruct t; reflexivity.
  - rewrite string_app_cons, string_app_nil_l. intros _.
    rewrite andb_false_r. reflexivity.
  - rewrite !string_app_cons. intros H; exact H.
Qed.

Lemma no_break_before_snoc (cur : string) (c : ascii) (rest : string) :
  no_break_before cur (String c rest) = true ->
  break_len (String c rest) = 0 ->
  no_break_before (cur ++ String c "")%string rest = true.
Proof.
  intros Hcur Hc. induction cur as [|a cur IH].
  - rewrite string_app_nil_l. cbn [no_break_before].
    rewrite string_app_cons, string_app_nil_l, Hc. reflexivity.
  - cbn [no_break_before] in Hcur. apply andb_true_iff in Hcur as [Ha Hcur].
    rewrite string_app_cons. cbn [no_break_before].
    replace (String a (cur ++ String c "") ++ rest)%string
      with (String a cur ++ String c rest)%string
      by (rewrite !string_app_cons, string_snoc_app; reflexivity).
    rewrite Ha, (IH Hcur). reflexivity.
Qed.

Lemma no_break_before_nil (cur s : string) :
  no_break_before cur s = true -> no_break cur = true.
Proof.
  unfold no_break. induction cur as [|a cur IH]; [reflexivity|].
  cbn [no_break_before]. intros H. apply andb_true_iff in H as [Ha Hcur].
  apply Nat.eqb_eq in Ha. apply break_len_prefix in Ha.
  rewrite string_app_nil_r, Ha, (IH Hcur). reflexivity.
Qed.

Lemma no_break_before_lf (l t : string) :
  no_break l = true -> no_break_before l (String LF t) = true.
Proof.
  unfold no_break. induction l as [|a l IH]; [reflexivity|].
  cbn [no_break_before]. intros H. apply andb_true_iff in H as [Ha Hl].
  apply Nat.eqb_eq in Ha. rewrite string_app_nil_r in Ha.
  rewrite (break_len_before_lf (String a l) t), (IH Hl);
    [reflexivity | discriminate | exact Ha].
Qed.

Lemma no_break_app (p l : string) :
  no_break_before p l = true -> no_break l = true ->
  no_break (p ++ l)%string = true.
Proof.
  unfold no_break. intros Hp Hl. induction p as [|a p IH].
  - exact Hl.
  - cbn [no_break_before] in Hp. apply andb_true_iff in Hp as [Ha Hp].
    rewrite string_app_cons. cbn [no_break_before].
    rewrite string_app_nil_r, <- string_app_cons, Ha, (IH Hp). reflexivity.
Qed.

(** Every line [splitlines] yields is free of line boundaries. *)
Lemma splitlines_go_no_break (s : string) :
  forall skip cur,
    (skip = 0 \/ cur = "") ->
    no_break_before cur s = true ->
    Forall (fun l => no_break l = true) (splitlines_go skip cur s).
Proof.
  induction s as [|c rest IH]; intros skip cur Hskip Hcur.
  - cbn [splitlines_go]. destruct (nonempty cur); constructor; [|constructor].
    exact Hcur.
  - cbn [splitlines_go]. destruct skip as [|k].
    + destruct (break_len (String c rest)) as [|k] eqn:Hb.
      * apply IH; [left; reflexivity|].
        apply no_break_before_snoc; assumption.
      * constructor; [apply (no_break_before_nil _ _ Hcur)|].
        apply IH; [right; reflexivity | reflexivity].
    + destruct Hskip as [Hk|Hc]; [discriminate|]. subst cur.
      apply IH; [right; reflexivity | reflexivity].
Qed.

Lemma splitlines_no_break (s : string) :
  Forall (fun l => no_break l = true) (splitlines s).
Proof. apply splitlines_go_no_break; [left|]; reflexivity. Qed.

(** A line without boundaries, then a line feed: one line. *)
Lemma splitlines_go_line (l : string) :
  forall cur t,
    no_break l = true ->
    splitlines_go 0 cur (l ++ String LF t)%string
    = (cur ++ l)%string :: splitlines_go 0 "" t.
Proof.
  induction l as [|a l IH]; intros cur t Hl.
  - rewrite string_app_nil_l, string_app_nil_r. reflexivity.
  - pose proof (no_break_before_lf _ t Hl) as Hlf.
    cbn [no_break_before] in Hlf. apply andb_true_iff in Hlf as [Ha _].
    apply Nat.eqb_eq in Ha.
    unfold no_break in Hl. cbn [no_break_before] in Hl.
    apply andb_true_iff in Hl as [_ Hl].
    rewrite string_app_cons in *. cbn [splitlines_go]. rewrite Ha.
    rewrite (IH _ _ Hl), string_snoc_app. reflexivity.
Qed.

Lemma join_lines_cons (l : string) (ls : list string) :
  ls <> [] ->
  join_lines (l :: ls) = (l ++ String LF (join_lines ls))%string.
Proof.
  intros Hne. unfold join_lines. destruct ls as [|l' ls]; [congruence|].
  cbn [String.concat].
  rewrite !string_app_assoc, string_app_cons, string_app_nil_l.
  reflexivity.
Qed.

Lemma join_lines_single (l : string) :
  join_lines [l] = (l ++ String LF "")%string.
Proof. reflexivity. Qed.

(** What is written is read back line for line, as long as no line
    holds a line boundary and there is at least one line. *)
Lemma splitlines_join_lines (ls : list string) :
  ls <> [] ->
  Forall (fun l => no_break l = true) ls ->
  splitlines (join_lines ls) = ls.
Proof.
  unfold splitlines. induction ls as [|l ls IH]; [congruence|].
  intros _ Hall. inversion Hall as [|? ? Hl Hls]; subst.
  destruct ls as [|l' ls].
  - rewrite join_lines_single, (splitlines_go_line l "" "" Hl).
    rewrite string_app_nil_l. reflexivity.
  - rewrite join_lines_cons by discriminate.
    rewrite (splitlines_go_line l "" _ Hl), string_app_nil_l.
    rewrite IH; [reflexivity | discriminate | exact Hls].
Qed.

(** ** Keys of config lines *)

Lemma startswith_nil (s : string) : startswith s "" = true.
Proof. destruct s; reflexivity. Qed.

Lemma startswith_cons (c a : ascii) (s p : string) :
  startswith (String c s) (String a p) = Ascii.eqb a c && startswith s p.
Proof.
  unfold startswith. cbn [String.prefix].
  destruct (Ascii.ascii_dec a c) as [->|Hne].
  - rewrite Ascii.eqb_refl. reflexivity.
  - apply Ascii.eqb_neq in Hne. rewrite Hne. reflexivity.
Qed.

Lemma line_key_startswith (k : string) :
  no_equals_sign k = true ->
  forall line,
    line_key line = Some k <-> startswith line (k ++ "=")%string = true.
Proof.
  induction k as [|a k IH]; intros Hk line.
  - change ("" ++ "=")%string with "=". destruct line as [|c rest].
    + split; discriminate.
    + rewrite startswith_cons, startswith_nil, andb_true_r.
      cbn [line_key]. rewrite (Ascii.eqb_sym "=" c).
      destruct (Ascii.eqb c "="); [split; reflexivity|].
      destruct (line_key rest); split; discriminate.
  - cbn [no_equals_sign] in Hk. apply andb_true_iff in Hk as [Ha Hk].
    apply negb_true_iff in Ha.
    change (String a k ++ "=")%string with (String a (k ++ "=")%string).
    destruct line as [|c rest].
    + split; discriminate.
    + rewrite startswith_cons, andb_true_iff, <- (IH Hk rest).
      cbn [line_key]. destruct (Ascii.eqb c "=") eqn:Ec.
      * split; [discriminate|]. intros [Hac _].
        apply Ascii.eqb_eq in Hac. subst c. congruence.
      * destruct (line_key rest) as [k'|]; cbn [option_map].
        -- split.
           ++ intros H. injection H as -> ->.
              split; [apply Ascii.eqb_refl | reflexivity].
           ++ intros [Hac H]. apply Ascii.eqb_eq in Hac.
              injection H as ->. subst c. reflexivity.
        -- split; [discriminate | intros [_ H]; discriminate].
Qed.

Lemma has_key_startswith (keys : list string) (line : string) :
  forallb no_equals_sign keys = true ->
  has_key keys line
  = existsb (fun k => startswith line (k ++ "=")%string) keys.
Proof.
  intros Hkeys. apply eq_true_iff_eq. rewrite existsb_exists.
  unfold has_key. split.
  - destruct (line_key line) as [k|] eqn:E; [|discriminate].
    rewrite existsb_exists. intros (k' & Hin & Heq).
    apply String.eqb_eq in Heq. subst k'. exists k. split; [exact Hin|].
    apply line_key_startswith; [|exact E].
    rewrite forallb_forall in Hkeys. apply Hkeys. exact Hin.
  - intros (k & Hin & Hsw). rewrite forallb_forall in Hkeys.
    apply (line_key_startswith k (Hkeys k Hin)) in Hsw. rewrite Hsw.
    apply existsb_exists. exists k. split; [exact Hin|].
    apply String.eqb_refl.
Qed.

Lemma is_access_line_key (line : string) :
  is_access_line line = has_key access_keys line.
Proof. rewrite has_key_startswith; reflexivity. Qed.

Lemma is_unrelated_line_key (line : string) :
  is_unrelated_line line = negb (has_key credential_keys line).
Proof.
  rewrite has_key_startswith by reflexivity.
  unfold is_unrelated_line, is_access_line, is_refresh_line, startswith_any,
    credential_keys, access_keys, access_prefixes.
  cbn [existsb app]. rewrite !orb_false_r, <- negb_orb, <- !orb_assoc.
  reflexivity.
Qed.

(** ** Rewriting the config file *)

Section Persist.

Variables access refresh : string.

Let canonical : string := ("SLACK_TOKEN=" ++ access)%string.
Let refreshed : string := ("SLACK_REFRESH_TOKEN=" ++ refresh)%string.

Lemma canonical_is_access : is_access_line canonical = true.
Proof.
  unfold is_access_line, startswith_any. apply List.existsb_exists.
  exists "SLACK_TOKEN=". split; [left; reflexivity|].
  apply startswith_app. exists access. reflexivity.
Qed.

Lemma canonical_related : is_unrelated_line canonical = false.
Proof. unfold is_unrelated_line. rewrite canonical_is_access. reflexivity. Qed.

Lemma refreshed_is_refresh : is_refresh_line refreshed = true.
Proof. apply startswith_app. exists refresh. reflexivity. Qed.

Lemma refreshed_not_access : is_access_line refreshed = false.
Proof. reflexivity. Qed.

Lemma refreshed_related : is_unrelated_line refreshed = false.
Proof.
  unfold is_unrelated_line. rewrite refreshed_is_refresh.
  apply andb_false_r.
Qed.

Lemma save_loop_unrelated (lines : list string) :
  forall st,
    List.filter is_unrelated_line
      (new_lines (fold_left (save_loop_body access refresh) lines st))
    = List.filter is_unrelated_line (new_lines st)
      ++ List.filter is_unrelated_line lines.
Proof.
  induction lines as [|line lines IH]; intros st; simpl.
  - symmetry. apply app_nil_r.
  - rewrite IH. unfold save_loop_body.
    change (startswith_any line access_prefixes) with (is_access_line line).
    change (startswith line "SLACK_REFRESH_TOKEN=") with (is_refresh_line line).
    assert (Hu : is_unrelated_line line
                 = negb (is_access_line line) && negb (is_refresh_line line))
      by reflexivity.
    destruct (is_access_line line); simpl in Hu.
    + rewrite Hu. destruct (found_access st); simpl; [reflexivity|].
      rewrite List.filter_app. simpl. fold canonical.
      rewrite canonical_related. rewrite app_nil_r. reflexivity.
    + destruct (is_refresh_line line); simpl in Hu; rewrite Hu; simpl.
      * rewrite List.filter_app. simpl. fold refreshed.
        rewrite refreshed_related. rewrite app_nil_r. reflexivity.
      * rewrite List.filter_app. simpl. rewrite Hu.
        rewrite <- app_assoc. reflexivity.
Qed.

Lemma save_loop_access (lines : list string) :
  forall st,
    let st' := fold_left (save_loop_body access refresh) lines st in
    found_access st' = found_access st || existsb is_access_line lines
    /\ List.filter is_access_line (new_lines st')
       = List.filter is_access_line (new_lines st)
         ++ (if found_access st then []
             else if existsb is_access_line lines then [canonical] else []).
Proof.
  induction lines as [|line lines IH]; intros st; simpl.
  - rewrite orb_false_r. split; [reflexivity|].
    destruct (found_access st); symmetry; apply app_nil_r.
  - destruct (IH (save_loop_body access refresh st line)) as [IHf IHl].
    rewrite IHf, IHl. clear IH IHf IHl. unfold save_loop_body.
    change (startswith_any line access_prefixes) with (is_access_line line).
    change (startswith line "SLACK_REFRESH_TOKEN=") with (is_refresh_line line).
    destruct (is_access_line line) eqn:Ea; simpl.
    + destruct (found_access st) eqn:Ef; simpl.
      * rewrite Ef. split; reflexivity.
      * split; [reflexivity|]. rewrite List.filter_app. simpl.
        fold canonical. rewrite canonical_is_access.
        rewrite app_nil_r. reflexivity.
    + destruct (is_refresh_line line) eqn:Er; simpl.
      * split; [reflexivity|]. rewrite List.filter_app. simpl.
        rewrite app_nil_r. reflexivity.
      * split; [reflexivity|]. rewrite List.filter_app. simpl.
        rewrite Ea. rewrite app_nil_r. reflexivity.
Qed.

Lemma save_loop_no_access (lines : list string) :
  forall st,
    existsb is_access_line lines = false ->
    new_lines (fold_left (save_loop_body access refresh) lines st)
    = new_lines st ++ map (keep_or_refresh refresh) lines.
Proof.
  induction lines as [|line lines IH]; intros st Hno; simpl in *.
  - symmetry. apply app_nil_r.
  - apply orb_false_iff in Hno as [Ea Hno].
    rewrite (IH _ Hno). unfold save_loop_body, keep_or_refresh.
    change (startswith_any line access_prefixes) with (is_access_line line).
    change (startswith line "SLACK_REFRESH_TOKEN=") with (is_refresh_line line).
    rewrite Ea.
    destruct (is_refresh_line line); simpl; rewrite <- app_assoc; reflexivity.
Qed.

End Persist.

(** The rewriting, in terms of the tests the loop applies. *)
Lemma rewrite_env_lines_tests (access refresh : string)
    (lines : list string) :
  let new := rewrite_env_lines access refresh lines in
  List.filter is_unrelated_line new = List.filter is_unrelated_line lines
  /\ List.filter is_access_line new = [("SLACK_TOKEN=" ++ access)%string]
  /\ (existsb is_access_line lines = false ->
      exists tail,
        new = map (keep_or_refresh refresh) lines
              ++ ("SLACK_TOKEN=" ++ access)%string :: tail
        /\ (tail = []
            \/ tail = [("SLACK_REFRESH_TOKEN=" ++ refresh)%string])).
Proof.
  cbv zeta. unfold rewrite_env_lines.
  pose proof (save_loop_unrelated access refresh lines
                (mkSaveLoop [] false false)) as Hu.
  destruct (save_loop_access access refresh lines
              (mkSaveLoop [] false false)) as [Hf Ha].
  pose proof (save_loop_no_access access refresh lines
                (mkSaveLoop [] false false)) as Hn.
  set (st := fold_left (save_loop_body access refresh) lines
               (mkSaveLoop [] false false)) in *.
  simpl in Hu, Hf, Ha, Hn.
  assert (Htail : forall (l : list string) (b : bool),
            List.filter is_unrelated_line
              (if b then l ++ [("SLACK_REFRESH_TOKEN=" ++ refresh)%string]
               else l)
            = List.filter is_unrelated_line l
            /\ List.filter is_access_line
                 (if b then l ++ [("SLACK_REFRESH_TOKEN=" ++ refresh)%string]
                  else l)
               = List.filter is_access_line l).
  { intros l [|]; [|split; reflexivity].
    rewrite (filter_snoc_false _ _ _ (refreshed_related refresh)).
    rewrite (filter_snoc_false _ _ _ (refreshed_not_access refresh)).
    split; reflexivity. }
  destruct (Htail (if negb (found_access st)
                   then new_lines st ++ [("SLACK_TOKEN=" ++ access)%string]
                   else new_lines st)
                  (negb (found_refresh st) && nonempty refresh))
    as [Htu Hta].
  rewrite Htu, Hta. clear Htail Htu Hta.
  rewrite Hf. destruct (existsb is_access_line lines) eqn:Hex; simpl.
  - rewrite Hu, Ha. split; [reflexivity | split; [reflexivity | discriminate]].
  - rewrite (filter_snoc_false _ _ _ (canonical_related access)).
    rewrite (filter_snoc_true _ _ _ (canonical_is_access access)).
    rewrite Hu, Ha. split; [reflexivity | split; [reflexivity|]].
    intros _. rewrite (Hn eq_refl).
    destruct (negb (found_refresh st) && nonempty refresh).
    + exists [("SLACK_REFRESH_TOKEN=" ++ refresh)%string].
      rewrite <- app_assoc. split; [reflexivity | right; reflexivity].
    + exists []. split; [reflexivity | left; reflexivity].
Qed.

Lemma rewrite_env_lines_not_nil (access refresh : string)
    (lines : list string) :
  rewrite_env_lines access refresh lines <> [].
Proof.
  intros H.
  destruct (rewrite_env_lines_tests access refresh lines) as (_ & Ha & _).
  rewrite H in Ha. discriminate.
Qed.

Lemma rewrite_env_lines_forall (P : string -> Prop)
    (access refresh : string) (lines : list string) :
  P ("SLACK_TOKEN=" ++ access)%string ->
  P ("SLACK_REFRESH_TOKEN=" ++ refresh)%string ->
  Forall P lines ->
  Forall P (rewrite_env_lines access refresh lines).
Proof.
  intros Ha Hr Hlines. unfold rewrite_env_lines.
  assert (Hloop : forall ls st,
            Forall P ls -> Forall P (new_lines st) ->
            Forall P (new_lines
                        (fold_left (save_loop_body access refresh) ls st))).
  { induction ls as [|l ls IH]; intros st Hls Hst; [exact Hst|].
    inversion Hls; subst. cbn [fold_left]. apply IH; [assumption|].
    unfold save_loop_body.
    destruct (startswith_any l access_prefixes).
    - destruct (negb (found_access st)); [|exact Hst].
      apply Forall_app. split; [exact Hst | repeat constructor; exact Ha].
    - destruct (startswith l "SLACK_REFRESH_TOKEN="); apply Forall_app;
        (split; [exact Hst | repeat constructor; assumption]). }
  pose proof (Hloop lines (mkSaveLoop [] false false) Hlines
                (List.Forall_nil P)) as Hst.
  set (st := fold_left (save_loop_body access refresh) lines
               (mkSaveLoop [] false false)) in *.
  assert (H1 : Forall P (if negb (found_access st)
                         then new_lines st
                              ++ [("SLACK_TOKEN=" ++ access)%string]
                         else new_lines st)).
  { destruct (negb (found_access st)); [|exact Hst].
    apply Forall_app. split; [exact Hst | repeat constructor; exact Ha]. }
  destruct (negb (found_refresh st) && nonempty refresh); [|exact H1].
  apply Forall_app. split; [exact H1 | repeat constructor; exact Hr].
Qed.

Lemma access_line_no_break (access : string) :
  no_break access = true ->
  no_break ("SLACK_TOKEN=" ++ access)%string = true.
Proof. intros H. apply no_break_app; [reflexivity | exact H]. Qed.

Lemma refresh_line_no_break (refresh : string) :
  no_break refresh = true ->
  no_break ("SLACK_REFRESH_TOKEN=" ++ refresh)%string = true.
Proof. intros H. apply no_break_app; [reflexivity | exact H]. Qed.

(** What is written is what the next read finds, line for line, when
    neither token holds a line boundary. *)
Lemma rewritten_lines_read_back (access refresh content : string) :
  no_break access = true -> no_break refresh = true ->
  splitlines
    (join_lines (rewrite_env_lines access refresh (splitlines content)))
  = rewrite_env_lines access refresh (splitlines content).
Proof.
  intros Ha Hr. apply splitlines_join_lines.
  - apply rewrite_env_lines_not_nil.
  - apply (rewrite_env_lines_forall (fun l => no_break l = true)).
    + apply access_line_no_break. exact Ha.
    + apply refresh_line_no_break. exact Hr.
    + apply splitlines_no_break.
Qed.

(** [_save_tokens_to_env], case by case on the file. *)
Lemma save_tokens_to_env_eq (access refresh : string) (w : World) :
  _save_tokens_to_env access refresh w
  = let w1 := set_token_state (mkTokenState access refresh) w in
    match env_file w with
    | Missing => (Returned tt, w1)
    | Unreadable e | ReadOnly _ e => (Raised e, w1)
    | Writable content =>
        (Returned tt,
         set_env_file
           (Writable
              (join_lines
                 (rewrite_env_lines access refresh (splitlines content))))
           w1)
    end.
Proof.
  unfold _save_tokens_to_env, bind, modify, gets, ret, ENV_FILE_exists,
    ENV_FILE_read_text, ENV_FILE_write_text, set_token_state, set_env_file.
  cbn. destruct (env_file w); reflexivity.
Qed.

(** C2 as stated fails: a new access token that holds a line feed is
    written as two lines, and the second carries an access key too; and
    a config file that cannot be written is not rewritten at all, the
    call raises after the pair in memory is replaced. *)
Lemma persist_line_break_token_splits :
  _save_tokens_to_env line_break_token "r2" one_line_world
  = (Returned tt,
     mkWorld (mkTokenState line_break_token "r2") ∅
       (Writable
          (join_lines ["A=1"; ("SLACK_TOKEN=" ++ line_break_token)%string;
                       "SLACK_REFRESH_TOKEN=r2"])) [] [])
  /\ List.filter (has_key access_keys)
       (splitlines
          (join_lines ["A=1"; ("SLACK_TOKEN=" ++ line_break_token)%string;
                       "SLACK_REFRESH_TOKEN=r2"]))
     = ["SLACK_TOKEN=AAA"; "SLACK_BOT_TOKEN=zzz"]
  /\ _save_tokens_to_env "AAA" "r2"
       (set_env_file (ReadOnly (join_lines ["A=1"]) OSError) one_line_world)
     = (Raised OSError,
        set_token_state (mkTokenState "AAA" "r2")
          (set_env_file (ReadOnly (join_lines ["A=1"]) OSError)
             one_line_world)).
Proof. repeat split. Qed.

(** C2, amended. When the config file can be read and written and
    neither new token holds a line boundary, [_save_tokens_to_env] stores
    the new pair and rewrites the file so that the lines whose key is
    not a credential key are kept as they were and in order, exactly one
    line carries an access key (the canonical one or an alias), namely
    [SLACK_TOKEN=<new value>], so that duplicates are collapsed, and that
    line is appended after the others when no access key was present. *)
Theorem persist_rewrites_config (w : World)
    (content access refresh : string) :
  env_file w = Writable content ->
  no_break access = true ->
  no_break refresh = true ->
  exists new_content,
    _save_tokens_to_env access refresh w
    = (Returned tt,
       mkWorld (mkTokenState access refresh) (environ w)
         (Writable new_content) (stdout w) (sent w))
    /\ List.filter (fun l => negb (has_key credential_keys l))
         (splitlines new_content)
       = List.filter (fun l => negb (has_key credential_keys l))
           (splitlines content)
    /\ List.filter (has_key access_keys) (splitlines new_content)
       = [("SLACK_TOKEN=" ++ access)%string]
    /\ (existsb (has_key access_keys) (splitlines content) = false ->
        exists tail,
          splitlines new_content
          = map (keep_or_refresh refresh) (splitlines content)
            ++ ("SLACK_TOKEN=" ++ access)%string :: tail
          /\ (tail = []
              \/ tail = [("SLACK_REFRESH_TOKEN=" ++ refresh)%string])).
Proof.
  intros Hfile Ha Hr.
  exists (join_lines (rewrite_env_lines access refresh (splitlines content))).
  split.
  { rewrite save_tokens_to_env_eq, Hfile. reflexivity. }
  rewrite (rewritten_lines_read_back access refresh content Ha Hr).
  destruct (rewrite_env_lines_tests access refresh (splitlines content))
    as (Hunrelated & Haccess & Happend).
  rewrite <- !(List.filter_ext _ _ is_unrelated_line_key).
  rewrite <- (List.filter_ext _ _ is_access_line_key).
  rewrite <- (existsb_pointwise _ _ (splitlines content) is_access_line_key).
  split; [exact Hunrelated|]. split; [exact Haccess | exact Happend].
Qed.

Lemma persist_rewrites_config_witness :
  (exists new_content,
     _save_tokens_to_env "AAA" "r2" sample_world
     = (Returned tt,
        mkWorld (mkTokenState "AAA" "r2") ∅ (Writable new_content) [] [])
     /\ List.filter (fun l => negb (has_key credential_keys l))
          (splitlines new_content)
        = ["A=1"; "B=2"]
     /\ List.filter (has_key access_keys) (splitlines new_content)
        = ["SLACK_TOKEN=AAA"])
  /\ (exists new_content tail,
        _save_tokens_to_env "AAA" "r2" one_line_world
        = (Returned tt,
           mkWorld (mkTokenState "AAA" "r2") ∅ (Writable new_content) [] [])
        /\ splitlines new_content = "A=1" :: "SLACK_TOKEN=AAA" :: tail
        /\ (tail = [] \/ tail = ["SLACK_REFRESH_TOKEN=r2"])).
Proof.
  split.
  - destruct (persist_rewrites_config sample_world (join_lines sample_lines)
                "AAA" "r2" eq_refl eq_refl eq_refl)
      as (new_content & Hsave & Hkept & Hone & _).
    exists new_content. split; [exact Hsave|].
    split; [exact Hkept | exact Hone].
  - destruct (persist_rewrites_config one_line_world (join_lines ["A=1"])
                "AAA" "r2" eq_refl eq_refl eq_refl)
      as (new_content & Hsave & _ & _ & Happend).
    destruct (Happend eq_refl) as (tail & Hlines & Htail).
    exists new_content, tail. split; [exact Hsave|].
    split; [exact Hlines | exact Htail].
Defined.

(** ** Reloading and reading the store *)

Lemma str_or_first_nonempty (env : gmap string string) :
  env_access_token env = first_nonempty (access_sources env).
Proof.
  unfold env_access_token, first_nonempty, access_sources, str_or.
  cbn [List.find].
  destruct (nonempty (getenv env "SLACK_TOKEN")); [reflexivity|].
  destruct (nonempty (getenv env "SLACK_BOT_TOKEN")); [reflexivity|].
  destruct (nonempty (getenv env "SLACK_USER_TOKEN")) eqn:E; [reflexivity|].
  apply nonempty_false in E. exact E.
Qed.

Lemma first_nonempty_empty (l : list string) :
  first_nonempty l = "" <-> Forall (fun s => s = "") l.
Proof.
  unfold first_nonempty. induction l as [|s l IH]; cbn [List.find].
  - split; [constructor | reflexivity].
  - destruct (nonempty s) eqn:E.
    + apply nonempty_true in E. split; [contradiction|].
      intros H. inversion H; subst. contradiction.
    + apply nonempty_false in E. rewrite IH. split.
      * intros H. constructor; assumption.
      * intros H. inversion H; assumption.
Qed.

Lemma load_token_from_env_eq (w : World) :
  _load_token_from_env w
  = (Returned tt,
     set_token_state
       {| access_token := first_nonempty (access_sources (environ w));
          refresh_token := getenv (environ w) "SLACK_REFRESH_TOKEN" |} w).
Proof.
  unfold _load_token_from_env, bind, gets, modify. cbn.
  rewrite str_or_first_nonempty. reflexivity.
Qed.

(** C4 as stated fails: with every source empty, a reload empties a store
    that held a live pair. *)
Lemma reload_clears_store :
  Forall (fun s => s = "") (access_sources (environ loaded_world))
  /\ getenv (environ loaded_world) "SLACK_REFRESH_TOKEN" = ""
  /\ _token_state loaded_world = mkTokenState "xoxb-live" "r-live"
  /\ _token_state (snd (_load_token_from_env loaded_world))
     = mkTokenState "" ""
  /\ _token_state (snd (_load_token_from_env loaded_world))
     <> _token_state loaded_world.
Proof.
  split; [repeat constructor|]. repeat split. discriminate.
Qed.

(** C4, amended. A reload assigns the access credential the first
    non-empty of [SLACK_TOKEN], [SLACK_BOT_TOKEN], [SLACK_USER_TOKEN] in
    that order (the empty string if all are empty) and the refresh
    credential the value of [SLACK_REFRESH_TOKEN] (the empty string if
    unset), whatever the store held; with every source empty the store is
    therefore emptied. *)
Theorem reload_assigns_from_sources (w : World) :
  _load_token_from_env w
  = (Returned tt,
     set_token_state
       {| access_token := first_nonempty (access_sources (environ w));
          refresh_token := getenv (environ w) "SLACK_REFRESH_TOKEN" |} w)
  /\ (Forall (fun s => s = "") (access_sources (environ w)) ->
      getenv (environ w) "SLACK_REFRESH_TOKEN" = "" ->
      _token_state (snd (_load_token_from_env w)) = mkTokenState "" "").
Proof.
  split; [apply load_token_from_env_eq|].
  intros Ha Hr. rewrite load_token_from_env_eq. cbn.
  apply first_nonempty_empty in Ha. rewrite Ha, Hr. reflexivity.
Qed.

Lemma reload_assigns_from_sources_witness :
  _token_state (snd (_load_token_from_env loaded_world)) = mkTokenState "" "".
Proof.
  apply (proj2 (reload_assigns_from_sources loaded_world)).
  - repeat constructor.
  - reflexivity.
Defined.

Lemma get_token_loaded (w : World) :
  access_token (_token_state w) <> "" ->
  _get_token w = (Returned (access_token (_token_state w)), w).
Proof.
  intros H. apply nonempty_true in H.
  unfold _get_token, bind, gets, ret. cbn. rewrite H. cbn. rewrite H.
  reflexivity.
Qed.

Lemma get_token_unloaded (w : World) :
  access_token (_token_state w) = "" ->
  _get_token w
  = (let tok := first_nonempty (access_sources (environ w)) in
     let w' := snd (_load_token_from_env w) in
     if nonempty tok then (Returned tok, w')
     else (Raised (ValueError token_missing_msg), w')).
Proof.
  intros H. apply nonempty_false in H.
  unfold _get_token, bind, gets, ret, raise.
  cbn -[_load_token_from_env]. rewrite H. cbn -[_load_token_from_env].
  rewrite load_token_from_env_eq. cbn.
  destruct (nonempty (first_nonempty (access_sources (environ w))));
    reflexivity.
Qed.

(** C5. [_get_token] raises exactly when the access credential is still
    empty after the reload it attempts on an empty store, and then it
    raises the missing-credential error.  A non-empty store is returned as
    it is; on an empty store with all access sources empty it raises, and
    with some source non-empty it returns the first non-empty one. *)
Theorem get_token_raises_iff_still_empty (w : World) :
  ((exists e, fst (_get_token w) = Raised e)
   <-> access_token (_token_state (snd (_get_token w))) = "")
  /\ (forall e, fst (_get_token w) = Raised e ->
        e = ValueError token_missing_msg)
  /\ (access_token (_token_state w) <> "" ->
      _get_token w = (Returned (access_token (_token_state w)), w))
  /\ (access_token (_token_state w) = "" ->
      snd (_get_token w) = snd (_load_token_from_env w))
  /\ (access_token (_token_state w) = "" ->
      Forall (fun s => s = "") (access_sources (environ w)) ->
      fst (_get_token w) = Raised (ValueError token_missing_msg))
  /\ (access_token (_token_state w) = "" ->
      first_nonempty (access_sources (environ w)) <> "" ->
      fst (_get_token w)
      = Returned (first_nonempty (access_sources (environ w)))).
Proof.
  destruct (String.eqb_spec (access_token (_token_state w)) "") as [He|Hne].
  - rewrite (get_token_unloaded w He). rewrite load_token_from_env_eq. cbn.
    destruct (nonempty (first_nonempty (access_sources (environ w)))) eqn:E;
      cbn.
    + apply nonempty_true in E.
      split; [split; [intros [e Hr]; discriminate | contradiction]|].
      split; [discriminate|]. split; [contradiction|].
      split; [reflexivity|]. split; [|reflexivity].
      intros _ Hall. apply first_nonempty_empty in Hall. contradiction.
    + apply nonempty_false in E.
      split; [split; [intros _; exact E | intros _; eexists; reflexivity]|].
      split; [intros e Hr; congruence|]. split; [contradiction|].
      split; [reflexivity|]. split; [reflexivity|]. contradiction.
  - rewrite (get_token_loaded w Hne). cbn.
    split; [split; [intros [e Hr]; discriminate | contradiction]|].
    split; [discriminate|]. split; [reflexivity|].
    split; [contradiction|]. split; contradiction.
Qed.

Lemma get_token_raises_iff_still_empty_witness :
  fst (_get_token empty_world) = Raised (ValueError token_missing_msg)
  /\ fst (_get_token unloaded_world) = Returned "xoxp-7".
Proof.
  split.
  - apply (proj1 (proj2 (proj2 (proj2 (proj2
             (get_token_raises_iff_still_empty empty_world)))))).
    + reflexivity.
    + repeat constructor.
  - apply (proj2 (proj2 (proj2 (proj2 (proj2
             (get_token_raises_iff_still_empty unloaded_world)))))).
    + reflexivity.
    + discriminate.
Defined.

(** ** User-scoped tokens *)

Lemma in_user_kinds_iff (kind : string) :
  in_user_kinds kind = true <-> kind = "user" \/ kind = "user_rotatable".
Proof.
  unfold in_user_kinds. rewrite orb_true_iff, !String.eqb_eq. reflexivity.
Qed.

(** C8 as stated fails: on a process with no credential anywhere
    [_is_user_token] does not return [False], it raises. *)
Lemma is_user_token_raises_when_empty :
  access_token (_token_state empty_world) = ""
  /\ fst (_get_token empty_world) = Raised (ValueError token_missing_msg)
  /\ fst (_is_user_token empty_world) = Raised (ValueError token_missing_msg)
  /\ fst (_is_user_token empty_world) <> Returned false.
Proof. repeat split. discriminate. Qed.

(** C8, amended. When [_get_token] returns a token, [_is_user_token]
    returns whether the token's kind is [user] or [user_rotatable], so it
    returns [False] for the kinds [bot], [bot_rotatable], [app_level] and
    [unknown]; when [_get_token] raises (no credential even after the
    reload), [_is_user_token] raises the same error. *)
Theorem is_user_token_follows_get_token (w : World) :
  match _get_token w with
  | (Returned token, w') =>
      exists b, _is_user_token w = (Returned b, w')
        /\ (b = true <-> _get_token_type token = "user"
                         \/ _get_token_type token = "user_rotatable")
        /\ (In (_get_token_type token)
              ["bot"; "bot_rotatable"; "app_level"; "unknown"] -> b = false)
  | (Raised e, w') => _is_user_token w = (Raised e, w')
  end.
Proof.
  unfold _is_user_token, bind. destruct (_get_token w) as [[token|e] w'].
  - exists (in_user_kinds (_get_token_type token)).
    split; [reflexivity|]. split; [apply in_user_kinds_iff|].
    intros Hin. apply not_true_is_false. rewrite in_user_kinds_iff.
    cbn in Hin. intros [Hk|Hk]; rewrite Hk in Hin;
      destruct Hin as [H|[H|[H|[H|[]]]]]; discriminate.
  - reflexivity.
Qed.

Lemma is_user_token_follows_get_token_witness :
  fst (_is_user_token loaded_world) = Returned false
  /\ fst (_is_user_token unloaded_world) = Returned true.
Proof.
  split.
  - pose proof (is_user_token_follows_get_token loaded_world) as H.
    change (_get_token loaded_world)
      with (@Returned string "xoxb-live", loaded_world) in H.
    destruct H as (b & Heq & _ & Hfalse).
    rewrite Heq. cbn. f_equal. apply Hfalse. left. reflexivity.
  - pose proof (is_user_token_follows_get_token unloaded_world) as H.
    change (_get_token unloaded_world)
      with (@Returned string "xoxp-7",
            set_token_state (mkTokenState "xoxp-7" "") unloaded_world) in H.
    destruct H as (b & Heq & [_ Htrue] & _).
    rewrite Heq. cbn. f_equal. apply Htrue. left. reflexivity.
Defined.

(** ** Closed forms of the effectful helpers *)

Lemma get_token_eq (w : World) :
  _get_token w
  = if nonempty (access_token (_token_state w))
    then (Returned (access_token (_token_state w)), w)
    else
      let tok := first_nonempty (access_sources (environ w)) in
      let w' := set_token_state
                  (mkTokenState tok (getenv (environ w) "SLACK_REFRESH_TOKEN"))
                  w in
      if nonempty tok then (Returned tok, w')
      else (Raised (ValueError token_missing_msg), w').
Proof.
  destruct (nonempty (access_token (_token_state w))) eqn:E.
  - apply nonempty_true in E. apply get_token_loaded. exact E.
  - apply nonempty_false in E. rewrite (get_token_unloaded w E).
    rewrite load_token_from_env_eq. reflexivity.
Qed.

Lemma rotated_eq (access refresh : string) (w : World) :
  rotated access refresh w
  = match file_failure (env_file w) with
    | None =>
        (Returned true,
         mkWorld (mkTokenState access refresh) (environ w)
           (persisted_file access refresh (env_file w))
           (stdout w ++ ["Token refreshed successfully"]) (sent w))
    | Some e =>
        (Raised e, set_token_state (mkTokenState access refresh) w)
    end.
Proof.
  unfold rotated. rewrite save_tokens_to_env_eq. cbv zeta.
  destruct (env_file w) eqn:E;
    unfold add_stdout, set_token_state, set_env_file; cbn; rewrite ?E;
    reflexivity.
Qed.

Lemma rotated_frame (access refresh : string) (w : World) :
  sent (snd (rotated access refresh w)) = sent w
  /\ environ (snd (rotated access refresh w)) = environ w
  /\ _token_state (snd (rotated access refresh w))
     = mkTokenState access refresh.
Proof.
  rewrite rotated_eq. destruct (file_failure (env_file w)); repeat split.
Qed.

Section Helpers.

Variable json_dumps : gmap string pyval -> string.
Variable api_answers : nat -> Exchange (gmap string pyval).
Variable rotate_answers : nat -> Exchange RotateData.

Lemma refresh_token_eq (w : World) :
  _refresh_token rotate_answers w
  = let refresh := refresh_token (_token_state w) in
    if nonempty refresh then
      let w1 := add_sent (rotate_request refresh) w in
      match rotate_answers (length (sent w)) with
      | TransportFailure => (Raised TransportError, w1)
      | Response NotJson => (Raised JSONDecodeError, w1)
      | Response (Json NotObject) => (Raised AttributeError, w1)
      | Response (Json (Object d)) =>
          if truthy (rot_ok d) then
            if nonempty (default "" (rot_token d)) then
              rotated (default "" (rot_token d))
                (default "" (rot_refresh_token d)) w1
            else (Returned false, w1)
          else
            (Returned false,
             add_stdout ("Token refresh failed: "
                           ++ default "unknown error" (rot_error d))%string
               w1)
      end
    else (Returned false, add_stdout "No refresh token available" w).
Proof.
  unfold _refresh_token, bind, gets, ret, print, modify, client_send.
  cbn -[_save_tokens_to_env SLACK_API_BASE].
  destruct (nonempty (refresh_token (_token_state w)));
    cbn -[_save_tokens_to_env SLACK_API_BASE]; [|reflexivity].
  change (HttpPostForm (SLACK_API_BASE ++ "/tooling.tokens.rotate")%string
            [("refresh_token", refresh_token (_token_state w))])
    with (rotate_request (refresh_token (_token_state w))).
  destruct (rotate_answers (length (sent w))) as [|[|[|d]]];
    cbn -[_save_tokens_to_env]; try reflexivity.
  destruct (truthy (rot_ok d)); [|reflexivity].
  destruct (nonempty (default "" (rot_token d))); [|reflexivity].
  unfold rotated. cbn -[_save_tokens_to_env].
  destruct (_save_tokens_to_env _ _ _) as [[[]|e] w2]; reflexivity.
Qed.

Lemma post_exchange_eq (endpoint : string)
    (params : option (gmap string pyval)) (w : World) :
  post_exchange api_answers endpoint params w
  = match _get_token w with
    | (Returned token, w1) =>
        api_outcome api_answers (post_request token endpoint params) w1
    | (Raised e, w1) => (Raised e, w1)
    end.
Proof.
  unfold post_exchange, bind. destruct (_get_token w) as [[token|e] w1];
    [|reflexivity].
  unfold client_send, api_outcome, post_request.
  destruct (api_answers (length (sent w1))) as [|[|[|d]]]; reflexivity.
Qed.

Lemma get_exchange_eq (endpoint : string)
    (params : option (gmap string pyval)) (w : World) :
  get_exchange api_answers endpoint params w
  = match _get_token w with
    | (Returned token, w1) =>
        api_outcome api_answers (get_request token endpoint params) w1
    | (Raised e, w1) => (Raised e, w1)
    end.
Proof.
  unfold get_exchange, bind. destruct (_get_token w) as [[token|e] w1];
    [|reflexivity].
  unfold client_send, api_outcome, get_request.
  destruct (api_answers (length (sent w1))) as [|[|[|d]]]; reflexivity.
Qed.

Lemma post_unfold (endpoint : string) (params : option (gmap string pyval))
    (retry : bool) (w : World) :
  _post json_dumps api_answers rotate_answers endpoint params retry w
  = match post_exchange api_answers endpoint params w with
    | (Raised e, w1) => (Raised e, w1)
    | (Returned data, w1) =>
        if token_expired data && retry then
          match _refresh_token rotate_answers w1 with
          | (Returned true, w2) =>
              _post json_dumps api_answers rotate_answers
                endpoint params false w2
          | (Returned false, w2) =>
              (Returned (text_result json_dumps data), w2)
          | (Raised e, w2) => (Raised e, w2)
          end
        else (Returned (text_result json_dumps data), w1)
    end.
Proof.
  funelim (_post json_dumps api_answers rotate_answers
             endpoint params retry w);
    repeat match goal with
           | H : post_exchange _ _ _ _ = _ |- _ => rewrite H; clear H
           | H : _refresh_token _ _ = _ |- _ => rewrite H; clear H
           end;
    try match goal with
        | H : token_expired _ && _ = _ |- _ => rewrite H
        end; reflexivity.
Qed.

Lemma get_unfold (endpoint : string) (params : option (gmap string pyval))
    (retry : bool) (w : World) :
  _get json_dumps api_answers rotate_answers endpoint params retry w
  = match get_exchange api_answers endpoint params w with
    | (Raised e, w1) => (Raised e, w1)
    | (Returned data, w1) =>
        if token_expired data && retry then
          match _refresh_token rotate_answers w1 with
          | (Returned true, w2) =>
              _get json_dumps api_answers rotate_answers
                endpoint params false w2
          | (Returned false, w2) =>
              (Returned (text_result json_dumps data), w2)
          | (Raised e, w2) => (Raised e, w2)
          end
        else (Returned (text_result json_dumps data), w1)
    end.
Proof.
  funelim (_get json_dumps api_answers rotate_answers
             endpoint params retry w);
    repeat match goal with
           | H : get_exchange _ _ _ _ = _ |- _ => rewrite H; clear H
           | H : _refresh_token _ _ = _ |- _ => rewrite H; clear H
           end;
    try match goal with
        | H : token_expired _ && _ = _ |- _ => rewrite H
        end; reflexivity.
Qed.

End Helpers.

(** ** Rotation *)

(** C3 as stated fails: when the rotation endpoint cannot be reached, or
    answers with a body that is not JSON, [_refresh_token] raises instead
    of returning [False]. *)
Lemma refresh_raises_on_transport_failure :
  fst (_refresh_token rotation_unreachable sample_world)
  = Raised TransportError
  /\ fst (_refresh_token rotation_unreachable sample_world) <> Returned false
  /\ fst (_refresh_token rotation_garbled sample_world)
     = Raised JSONDecodeError
  /\ fst (_refresh_token rotation_garbled sample_world) <> Returned false.
Proof. repeat split; discriminate. Qed.

(** C3, amended. With no refresh token, with an answer whose success flag
    is false, and with a successful answer whose new access token is empty
    or missing, [_refresh_token] returns [False]; on a transport failure
    and on an answer that is not a JSON object the exception leaves
    [_refresh_token].  In each of these cases the pair in memory and the
    config file are as they were.  (A granted rotation returns [True],
    unless the config file exists and cannot be read or written: then
    the error of the file operation leaves [_refresh_token].) *)
Theorem refresh_failure_keeps_store
    (rotate_answers : nat -> Exchange RotateData) (w : World) :
  let r := _refresh_token rotate_answers w in
  if nonempty (refresh_token (_token_state w)) then
    match rotate_answers (length (sent w)) with
    | TransportFailure =>
        fst r = Raised TransportError /\ store_unchanged w (snd r)
    | Response NotJson =>
        fst r = Raised JSONDecodeError /\ store_unchanged w (snd r)
    | Response (Json NotObject) =>
        fst r = Raised AttributeError /\ store_unchanged w (snd r)
    | Response (Json (Object d)) =>
        if rotation_succeeds d then
          match file_failure (env_file w) with
          | None => fst r = Returned true
          | Some e => fst r = Raised e
          end
        else fst r = Returned false /\ store_unchanged w (snd r)
    end
  else fst r = Returned false /\ store_unchanged w (snd r).
Proof.
  cbv zeta. rewrite refresh_token_eq. cbv zeta. unfold store_unchanged.
  destruct (nonempty (refresh_token (_token_state w))).
  - destruct (rotate_answers (length (sent w))) as [|[|[|d]]];
      try (repeat split; reflexivity).
    unfold rotation_succeeds.
    destruct (truthy (rot_ok d)); cbn [andb];
      [|repeat split; reflexivity].
    destruct (nonempty (default "" (rot_token d)));
      [|repeat split; reflexivity].
    rewrite rotated_eq. cbn [env_file add_sent].
    destruct (file_failure (env_file w)); reflexivity.
  - repeat split; reflexivity.
Qed.

(** ** Expiry without a refresh token *)

(** C6. If the first attempt is answered with an expiry signal and the
    stored refresh token is empty, [_refresh_token] returns [False]
    without sending anything, and the call returns the expiry payload of
    that first attempt; the only request sent is the API call itself. *)
Theorem expiry_without_refresh_token
    (json_dumps : gmap string pyval -> string)
    (api_answers : nat -> Exchange (gmap string pyval))
    (rotate_answers : nat -> Exchange RotateData)
    (endpoint : string) (params : option (gmap string pyval))
    (w w1 : World) (token : string) (data : gmap string pyval) :
  _get_token w = (Returned token, w1) ->
  refresh_token (_token_state w1) = "" ->
  api_answers (length (sent w1)) = Response (Json (Object data)) ->
  token_expired data = true ->
  (forall w',
     refresh_token (_token_state w') = "" ->
     _refresh_token rotate_answers w'
     = (Returned false, add_stdout "No refresh token available" w'))
  /\ _post json_dumps api_answers rotate_answers endpoint params true w
     = (Returned [mkTextContent "text" (json_dumps data)],
        add_stdout "No refresh token available"
          (add_sent (post_request token endpoint params) w1))
  /\ _get json_dumps api_answers rotate_answers endpoint params true w
     = (Returned [mkTextContent "text" (json_dumps data)],
        add_stdout "No refresh token available"
          (add_sent (get_request token endpoint params) w1)).
Proof.
  intros Htok Hrefresh Hanswer Hexpired.
  assert (Hno : forall w',
            refresh_token (_token_state w') = "" ->
            _refresh_token rotate_answers w'
            = (Returned false, add_stdout "No refresh token available" w')).
  { intros w' Hw'. rewrite refresh_token_eq. cbv zeta. rewrite Hw'.
    reflexivity. }
  split; [exact Hno|]. split.
  - rewrite post_unfold, post_exchange_eq, Htok. unfold api_outcome.
    rewrite Hanswer, Hexpired. cbn [andb].
    rewrite (Hno (add_sent _ w1) Hrefresh). reflexivity.
  - rewrite get_unfold, get_exchange_eq, Htok. unfold api_outcome.
    rewrite Hanswer, Hexpired. cbn [andb].
    rewrite (Hno (add_sent _ w1) Hrefresh). reflexivity.
Qed.

Lemma expiry_without_refresh_token_witness :
  _post sample_dumps always_expired rotation_grants
    "chat.postMessage" None true no_refresh_world
  = (Returned [mkTextContent "text" "{expired}"],
     add_stdout "No refresh token available"
       (add_sent (post_request "xoxb-live" "chat.postMessage" None)
          no_refresh_world)).
Proof.
  apply (expiry_without_refresh_token sample_dumps always_expired
           rotation_grants "chat.postMessage" None
           no_refresh_world no_refresh_world "xoxb-live" expired_payload).
  - reflexivity.
  - reflexivity.
  - reflexivity.
  - reflexivity.
Defined.

(** ** Counting round trips *)

Lemma sends_refl (w w' : World) (na nr : nat) :
  sent w' = sent w -> sends w w' na nr.
Proof.
  intros H. exists []. rewrite app_nil_r.
  split; [exact H|]. split; cbn; lia.
Qed.

Lemma sends_trans (w w1 w2 : World) (na nr na' nr' : nat) :
  sends w w1 na nr -> sends w1 w2 na' nr' -> sends w w2 (na + na') (nr + nr').
Proof.
  intros (l1 & E1 & A1 & R1) (l2 & E2 & A2 & R2). exists (l1 ++ l2).
  split; [rewrite E2, E1; symmetry; apply app_assoc|].
  unfold api_calls, rotation_calls in *.
  rewrite !List.filter_app, !length_app. lia.
Qed.

Lemma sends_weaken (w w' : World) (na nr na' nr' : nat) :
  na <= na' -> nr <= nr' -> sends w w' na nr -> sends w w' na' nr'.
Proof.
  intros Ha Hr (l & E & A & R). exists l. repeat split; [exact E|lia|lia].
Qed.

Lemma get_token_sent (w : World) : sent (snd (_get_token w)) = sent w.
Proof.
  rewrite get_token_eq. cbv zeta.
  destruct (nonempty (access_token (_token_state w))); [reflexivity|].
  destruct (nonempty (first_nonempty (access_sources (environ w))));
    reflexivity.
Qed.

Section RoundTrips.

Variable json_dumps : gmap string pyval -> string.
Variable api_answers : nat -> Exchange (gmap string pyval).
Variable rotate_answers : nat -> Exchange RotateData.

Lemma api_outcome_sends (req : Request) (w : World) :
  is_api_call req = true ->
  sends w (snd (api_outcome api_answers req w)) 1 0.
Proof.
  intros Hreq. exists [req].
  assert (Hc : api_calls [req] <= 1 /\ rotation_calls [req] <= 0).
  { unfold api_calls, rotation_calls, is_rotation_call. cbn.
    rewrite Hreq. cbn. lia. }
  unfold api_outcome.
  destruct (api_answers (length (sent w))) as [|[|[|d]]];
    (split; [reflexivity | exact Hc]).
Qed.

Lemma post_exchange_sends (endpoint : string)
    (params : option (gmap string pyval)) (w : World) :
  sends w (snd (post_exchange api_answers endpoint params w)) 1 0.
Proof.
  rewrite post_exchange_eq. pose proof (get_token_sent w) as Hs.
  destruct (_get_token w) as [[token|e] w1]; cbn in Hs.
  - apply (sends_trans w w1 _ 0 0 1 0); [apply sends_refl; exact Hs|].
    apply api_outcome_sends. reflexivity.
  - apply sends_refl. exact Hs.
Qed.

Lemma get_exchange_sends (endpoint : string)
    (params : option (gmap string pyval)) (w : World) :
  sends w (snd (get_exchange api_answers endpoint params w)) 1 0.
Proof.
  rewrite get_exchange_eq. pose proof (get_token_sent w) as Hs.
  destruct (_get_token w) as [[token|e] w1]; cbn in Hs.
  - apply (sends_trans w w1 _ 0 0 1 0); [apply sends_refl; exact Hs|].
    apply api_outcome_sends. reflexivity.
  - apply sends_refl. exact Hs.
Qed.

Lemma refresh_token_sends (w : World) :
  sends w (snd (_refresh_token rotate_answers w)) 0 1.
Proof.
  rewrite refresh_token_eq. cbv zeta.
  destruct (nonempty (refresh_token (_token_state w)));
    [|apply sends_refl; reflexivity].
  exists [rotate_request (refresh_token (_token_state w))].
  assert (Hc : api_calls [rotate_request (refresh_token (_token_state w))] <= 0
               /\ rotation_calls
                    [rotate_request (refresh_token (_token_state w))] <= 1).
  { cbn. lia. }
  destruct (rotate_answers (length (sent w))) as [|[|[|d]]];
    try (split; [reflexivity | exact Hc]).
  destruct (truthy (rot_ok d)); [|split; [reflexivity | exact Hc]].
  destruct (nonempty (default "" (rot_token d)));
    (split; [|exact Hc]).
  - rewrite (proj1 (rotated_frame _ _ _)). reflexivity.
  - reflexivity.
Qed.

Lemma post_last_attempt_sends (endpoint : string)
    (params : option (gmap string pyval)) (w : World) :
  sends w (snd (_post json_dumps api_answers rotate_answers
                  endpoint params false w)) 1 0.
Proof.
  rewrite post_unfold. pose proof (post_exchange_sends endpoint params w) as H.
  destruct (post_exchange api_answers endpoint params w) as [[data|e] w1];
    [rewrite andb_false_r|]; exact H.
Qed.

Lemma get_last_attempt_sends (endpoint : string)
    (params : option (gmap string pyval)) (w : World) :
  sends w (snd (_get json_dumps api_answers rotate_answers
                  endpoint params false w)) 1 0.
Proof.
  rewrite get_unfold. pose proof (get_exchange_sends endpoint params w) as H.
  destruct (get_exchange api_answers endpoint params w) as [[data|e] w1];
    [rewrite andb_false_r|]; exact H.
Qed.

Lemma post_sends (endpoint : string) (params : option (gmap string pyval))
    (retry : bool) (w : World) :
  sends w (snd (_post json_dumps api_answers rotate_answers
                  endpoint params retry w))
    (if retry then 2 else 1) (if retry then 1 else 0).
Proof.
  destruct retry; [|apply post_last_attempt_sends].
  rewrite post_unfold. pose proof (post_exchange_sends endpoint params w) as H.
  destruct (post_exchange api_answers endpoint params w) as [[data|e] w1];
    cbn [snd] in *; [|apply (sends_weaken _ _ 1 0); [lia|lia|exact H]].
  rewrite andb_true_r. destruct (token_expired data);
    [|apply (sends_weaken _ _ 1 0); [lia|lia|exact H]].
  pose proof (refresh_token_sends w1) as Hr.
  destruct (_refresh_token rotate_answers w1) as [[[|]|e] w2]; cbn [snd] in *.
  - apply (sends_trans _ _ _ _ _ 1 0
             (sends_trans _ _ _ _ _ _ _ H Hr)
             (post_last_attempt_sends endpoint params w2)).
  - apply (sends_weaken _ _ (1 + 0) (0 + 1)); [lia|lia|].
    exact (sends_trans _ _ _ _ _ _ _ H Hr).
  - apply (sends_weaken _ _ (1 + 0) (0 + 1)); [lia|lia|].
    exact (sends_trans _ _ _ _ _ _ _ H Hr).
Qed.

Lemma get_sends (endpoint : string) (params : option (gmap string pyval))
    (retry : bool) (w : World) :
  sends w (snd (_get json_dumps api_answers rotate_answers
                  endpoint params retry w))
    (if retry then 2 else 1) (if retry then 1 else 0).
Proof.
  destruct retry; [|apply get_last_attempt_sends].
  rewrite get_unfold. pose proof (get_exchange_sends endpoint params w) as H.
  destruct (get_exchange api_answers endpoint params w) as [[data|e] w1];
    cbn [snd] in *; [|apply (sends_weaken _ _ 1 0); [lia|lia|exact H]].
  rewrite andb_true_r. destruct (token_expired data);
    [|apply (sends_weaken _ _ 1 0); [lia|lia|exact H]].
  pose proof (refresh_token_sends w1) as Hr.
  destruct (_refresh_token rotate_answers w1) as [[[|]|e] w2]; cbn [snd] in *.
  - apply (sends_trans _ _ _ _ _ 1 0
             (sends_trans _ _ _ _ _ _ _ H Hr)
             (get_last_attempt_sends endpoint params w2)).
  - apply (sends_weaken _ _ (1 + 0) (0 + 1)); [lia|lia|].
    exact (sends_trans _ _ _ _ _ _ _ H Hr).
  - apply (sends_weaken _ _ (1 + 0) (0 + 1)); [lia|lia|].
    exact (sends_trans _ _ _ _ _ _ _ H Hr).
Qed.

End RoundTrips.

(** C1. Whatever the platform answers, one call of [_post] or [_get]
    sends at most two API requests and at most one rotation request; a
    call made with [retry_on_auth_fail=False], as the retried attempt is,
    sends at most one API request and no rotation request. *)
Theorem dispatch_at_most_two_round_trips
    (json_dumps : gmap string pyval -> string)
    (api_answers : nat -> Exchange (gmap string pyval))
    (rotate_answers : nat -> Exchange RotateData)
    (endpoint : string) (params : option (gmap string pyval))
    (retry : bool) (w : World) :
  (exists new,
     sent (snd (_post json_dumps api_answers rotate_answers
                  endpoint params retry w)) = sent w ++ new
     /\ api_calls new <= (if retry then 2 else 1)
     /\ rotation_calls new <= (if retry then 1 else 0))
  /\ (exists new,
        sent (snd (_get json_dumps api_answers rotate_answers
                     endpoint params retry w)) = sent w ++ new
        /\ api_calls new <= (if retry then 2 else 1)
        /\ rotation_calls new <= (if retry then 1 else 0)).
Proof.
  split.
  - apply (post_sends json_dumps api_answers rotate_answers).
  - apply (get_sends json_dumps api_answers rotate_answers).
Qed.

(** Against a platform that answers every API call with the expiry signal
    and grants every rotation, the two API calls are both made and the
    second expiry answer is what the caller gets. *)
Example always_expired_two_attempts :
  _post sample_dumps always_expired rotation_grants
    "chat.postMessage" None true sample_world
  = (Returned [mkTextContent "text" "{expired}"],
     mkWorld (mkTokenState "AAA" "r2") ∅
       (Writable
          (join_lines
             ["A=1"; "SLACK_TOKEN=AAA"; "B=2"; "SLACK_REFRESH_TOKEN=r2"]))
       ["Token refreshed successfully"]
       [post_request "xoxe.xoxp-1" "chat.postMessage" None;
        rotate_request "r1";
        post_request "AAA" "chat.postMessage" None]).
Proof. reflexivity. Qed.

(** ** The pair invariant *)

Section PairInvariant.

Variable json_dumps : gmap string pyval -> string.
Variable api_answers : nat -> Exchange (gmap string pyval).
Variable rotate_answers : nat -> Exchange RotateData.
Variable env : gmap string string.
Hypothesis env_ok : env_pair_ok env.

Lemma load_token_inv (w : World) :
  pair_inv env w -> pair_inv env (snd (_load_token_from_env w)).
Proof.
  intros [He _]. rewrite load_token_from_env_eq. split; [exact He|].
  cbn. rewrite He. exact env_ok.
Qed.

Lemma get_token_inv (w : World) :
  pair_inv env w -> pair_inv env (snd (_get_token w)).
Proof.
  intros Hi. destruct (String.eqb_spec (access_token (_token_state w)) "")
    as [He|Hne].
  - rewrite (get_token_unloaded w He). cbv zeta.
    apply load_token_inv in Hi.
    destruct (nonempty (first_nonempty (access_sources (environ w))));
      exact Hi.
  - rewrite (get_token_loaded w Hne). exact Hi.
Qed.

Lemma is_user_token_inv (w : World) :
  pair_inv env w -> pair_inv env (snd (_is_user_token w)).
Proof.
  intros Hi. apply get_token_inv in Hi.
  unfold _is_user_token, bind.
  destruct (_get_token w) as [[token|e] w1]; exact Hi.
Qed.

Lemma api_outcome_inv (req : Request) (w : World) :
  pair_inv env w -> pair_inv env (snd (api_outcome api_answers req w)).
Proof.
  intros Hi. unfold api_outcome.
  destruct (api_answers (length (sent w))) as [|[|[|d]]]; exact Hi.
Qed.

Lemma post_exchange_inv (endpoint : string)
    (params : option (gmap string pyval)) (w : World) :
  pair_inv env w ->
  pair_inv env (snd (post_exchange api_answers endpoint params w)).
Proof.
  intros Hi. apply get_token_inv in Hi. rewrite post_exchange_eq.
  destruct (_get_token w) as [[token|e] w1]; [|exact Hi].
  apply api_outcome_inv. exact Hi.
Qed.

Lemma get_exchange_inv (endpoint : string)
    (params : option (gmap string pyval)) (w : World) :
  pair_inv env w ->
  pair_inv env (snd (get_exchange api_answers endpoint params w)).
Proof.
  intros Hi. apply get_token_inv in Hi. rewrite get_exchange_eq.
  destruct (_get_token w) as [[token|e] w1]; [|exact Hi].
  apply api_outcome_inv. exact Hi.
Qed.

Lemma refresh_token_inv (w : World) :
  pair_inv env w -> pair_inv env (snd (_refresh_token rotate_answers w)).
Proof.
  intros Hi. rewrite refresh_token_eq. cbv zeta.
  destruct (nonempty (refresh_token (_token_state w))); [|exact Hi].
  destruct (rotate_answers (length (sent w))) as [|[|[|d]]]; try exact Hi.
  destruct (truthy (rot_ok d)); [|exact Hi].
  destruct (nonempty (default "" (rot_token d))) eqn:E; [|exact Hi].
  destruct (rotated_frame (default "" (rot_token d))
              (default "" (rot_refresh_token d))
              (add_sent (rotate_request (refresh_token (_token_state w))) w))
    as (_ & Henv & Hpair).
  split; [rewrite Henv; exact (proj1 Hi)|]. rewrite Hpair.
  apply nonempty_true in E. intros Hempty. cbn in Hempty. contradiction.
Qed.

Lemma post_inv (endpoint : string) (params : option (gmap string pyval))
    (retry : bool) (w : World) :
  pair_inv env w ->
  pair_inv env (snd (_post json_dumps api_answers rotate_answers
                       endpoint params retry w)).
Proof.
  funelim (_post json_dumps api_answers rotate_answers
             endpoint params retry w); intros Hi;
    match goal with
    | H : post_exchange _ _ _ ?w0 = _ |- _ =>
        pose proof (post_exchange_inv endpoint params w0 Hi) as Hx;
        rewrite H in Hx; cbn [snd] in Hx
    end;
    try match goal with
        | H : _refresh_token _ ?w0 = _ |- _ =>
            pose proof (refresh_token_inv w0 Hx) as Hr;
            rewrite H in Hr; cbn [snd] in Hr
        end;
    cbn [snd]; auto.
Qed.

Lemma get_inv (endpoint : string) (params : option (gmap string pyval))
    (retry : bool) (w : World) :
  pair_inv env w ->
  pair_inv env (snd (_get json_dumps api_answers rotate_answers
                      endpoint params retry w)).
Proof.
  funelim (_get json_dumps api_answers rotate_answers
             endpoint params retry w); intros Hi;
    match goal with
    | H : get_exchange _ _ _ ?w0 = _ |- _ =>
        pose proof (get_exchange_inv endpoint params w0 Hi) as Hx;
        rewrite H in Hx; cbn [snd] in Hx
    end;
    try match goal with
        | H : _refresh_token _ ?w0 = _ |- _ =>
            pose proof (refresh_token_inv w0 Hx) as Hr;
            rewrite H in Hr; cbn [snd] in Hr
        end;
    cbn [snd]; auto.
Qed.

Lemma run_op_inv (op : Op) (w : World) :
  pair_inv env w ->
  pair_inv env (run_op json_dumps api_answers rotate_answers op w).
Proof.
  destruct op; cbn [run_op].
  - apply load_token_inv.
  - apply get_token_inv.
  - apply is_user_token_inv.
  - apply refresh_token_inv.
  - apply post_inv.
  - apply get_inv.
Qed.

Lemma reachable_inv (file : EnvFile) (w : World) :
  reachable json_dumps api_answers rotate_answers env file w ->
  pair_inv env w.
Proof.
  induction 1 as [|w op Hreach IH].
  - split; [reflexivity|]. unfold pair_ok. cbn.
    rewrite str_or_first_nonempty. exact env_ok.
  - apply run_op_inv. exact IH.
Qed.

End PairInvariant.

(** C9 as stated fails: started in an environment that names only a
    refresh token, the process holds an empty access credential together
    with a non-empty refresh credential, and a reload leaves it so. *)
Lemma refresh_without_access_reachable :
  reachable sample_dumps always_expired rotation_grants
    refresh_only_env Missing (initial_world refresh_only_env Missing)
  /\ _token_state (initial_world refresh_only_env Missing)
     = mkTokenState "" "r-only"
  /\ ~ pair_ok (_token_state (initial_world refresh_only_env Missing))
  /\ ~ pair_ok (_token_state
                  (snd (_load_token_from_env
                          (initial_world refresh_only_env Missing)))).
Proof.
  split; [constructor|]. split; [reflexivity|].
  split; intros H; specialize (H eq_refl); discriminate.
Qed.

(** C9, amended. If the environment names no refresh token without
    naming an access token, then in every reachable state (after seeding
    and after any sequence of reloads, reads, rotations and dispatches)
    the pair is either fully empty or has a non-empty access credential;
    and a rotation that stores a pair stores a non-empty access
    credential whatever the environment. *)
Theorem reachable_pair_ok
    (json_dumps : gmap string pyval -> string)
    (api_answers : nat -> Exchange (gmap string pyval))
    (rotate_answers : nat -> Exchange RotateData)
    (env : gmap string string) (file : EnvFile) (w : World) :
  env_pair_ok env ->
  reachable json_dumps api_answers rotate_answers env file w ->
  pair_ok (_token_state w)
  /\ (fst (_refresh_token rotate_answers w) = Returned true ->
      access_token (_token_state (snd (_refresh_token rotate_answers w)))
      <> "").
Proof.
  intros Henv Hreach. split.
  - exact (proj2 (reachable_inv json_dumps api_answers rotate_answers
                    env Henv file w Hreach)).
  - rewrite refresh_token_eq. cbv zeta.
    destruct (nonempty (refresh_token (_token_state w))); [|discriminate].
    destruct (rotate_answers (length (sent w))) as [|[|[|d]]];
      try discriminate.
    destruct (truthy (rot_ok d)); [|discriminate].
    destruct (nonempty (default "" (rot_token d))) eqn:E; [|discriminate].
    intros _. rewrite (proj2 (proj2 (rotated_frame _ _ _))). cbn.
    apply nonempty_true. exact E.
Qed.

Lemma reachable_pair_ok_witness :
  pair_ok (_token_state
             (run_op sample_dumps always_expired rotation_grants
                (OpPost "chat.postMessage" None true)
                (initial_world user_env (Writable (join_lines sample_lines))))).
Proof.
  apply (reachable_pair_ok sample_dumps always_expired rotation_grants
           user_env (Writable (join_lines sample_lines))).
  - intros _. reflexivity.
  - apply reach_step. apply reach_init.
Defined.

(** ** POST and GET side by side *)

Lemma in_step_refl (wp wg : World) : agree wp wg -> in_step wp wg wp wg.
Proof.
  intros H. split; [exact H|]. exists [], [].
  rewrite !app_nil_r. repeat split. constructor.
Qed.

Lemma in_step_trans (wp wg wp1 wg1 wp2 wg2 : World) :
  in_step wp wg wp1 wg1 -> in_step wp1 wg1 wp2 wg2 ->
  in_step wp wg wp2 wg2.
Proof.
  intros [_ (np & ng & Ep & Eg & F)] [Ha (np' & ng' & Ep' & Eg' & F')].
  split; [exact Ha|]. exists (np ++ np'), (ng ++ ng').
  rewrite Ep', Ep, Eg', Eg, <- !app_assoc.
  repeat split. apply Forall2_app; assumption.
Qed.

Lemma in_step_silent (wp wg wp' wg' : World) :
  agree wp' wg' -> sent wp' = sent wp -> sent wg' = sent wg ->
  in_step wp wg wp' wg'.
Proof.
  intros Ha Hp Hg. split; [exact Ha|]. exists [], [].
  rewrite !app_nil_r. repeat split; [exact Hp | exact Hg | constructor].
Qed.

(** Agreeing worlds, field by field: the second becomes the first with
    another log of the same length. *)
Ltac split_agreeing wp wg Ha Hlen :=
  let ts' := fresh "ts'" in let env' := fresh "env'" in
  let file' := fresh "file'" in let out' := fresh "out'" in
  let H1 := fresh in let H2 := fresh in let H3 := fresh in
  let H4 := fresh in
  destruct wp as [ts env file out sp], wg as [ts' env' file' out' sg];
  destruct Ha as (H1 & H2 & H3 & H4 & Hlen);
  cbn in H1, H2, H3, H4, Hlen; subst ts' env' file' out'.

Lemma get_token_agree (wp wg : World) :
  agree wp wg ->
  fst (_get_token wp) = fst (_get_token wg)
  /\ in_step wp wg (snd (_get_token wp)) (snd (_get_token wg)).
Proof.
  intros Ha. split_agreeing wp wg Ha Hlen.
  rewrite !get_token_eq. cbv zeta. cbn [_token_state environ].
  destruct (nonempty (access_token ts)).
  - split; [reflexivity|]. apply in_step_refl. repeat split. exact Hlen.
  - destruct (nonempty (first_nonempty (access_sources env)));
      (split; [reflexivity|]; apply in_step_silent;
       [repeat split; exact Hlen | reflexivity | reflexivity]).
Qed.

Section SideBySide.

Variable json_dumps : gmap string pyval -> string.
Variable api_answers : nat -> Exchange (gmap string pyval).
Variable rotate_answers : nat -> Exchange RotateData.

Lemma api_outcome_agree (rp rg : Request) (wp wg : World) :
  same_call rp rg -> agree wp wg ->
  fst (api_outcome api_answers rp wp) = fst (api_outcome api_answers rg wg)
  /\ in_step wp wg (snd (api_outcome api_answers rp wp))
       (snd (api_outcome api_answers rg wg)).
Proof.
  intros Hsame Ha. unfold api_outcome.
  destruct Ha as (Hts & Henv & Hfile & Hout & Hlen). rewrite <- Hlen.
  assert (Hstep : in_step wp wg (add_sent rp wp) (add_sent rg wg)).
  { split.
    - repeat split; cbn; try assumption. rewrite !length_app, Hlen.
      reflexivity.
    - exists [rp], [rg]. repeat split. constructor; [exact Hsame|constructor]. }
  destruct (api_answers (length (sent wp))) as [|[|[|d]]];
    (split; [reflexivity | exact Hstep]).
Qed.

Lemma exchange_agree (endpoint : string)
    (params : option (gmap string pyval)) (wp wg : World) :
  agree wp wg ->
  fst (post_exchange api_answers endpoint params wp)
  = fst (get_exchange api_answers endpoint params wg)
  /\ in_step wp wg (snd (post_exchange api_answers endpoint params wp))
       (snd (get_exchange api_answers endpoint params wg)).
Proof.
  intros Ha. rewrite post_exchange_eq, get_exchange_eq.
  destruct (get_token_agree wp wg Ha) as [Hfst Hstep].
  destruct (_get_token wp) as [[tp|ep] wp1],
           (_get_token wg) as [[tg|eg] wg1]; cbn [fst snd] in *;
    try discriminate.
  - injection Hfst as ->.
    destruct (api_outcome_agree (post_request tg endpoint params)
                (get_request tg endpoint params) wp1 wg1) as [Hf Hs].
    + unfold post_request, get_request. constructor.
    + exact (proj1 Hstep).
    + split; [exact Hf|]. exact (in_step_trans _ _ _ _ _ _ Hstep Hs).
  - injection Hfst as ->. split; [reflexivity | exact Hstep].
Qed.

Lemma refresh_token_agree (wp wg : World) :
  agree wp wg ->
  fst (_refresh_token rotate_answers wp)
  = fst (_refresh_token rotate_answers wg)
  /\ in_step wp wg (snd (_refresh_token rotate_answers wp))
       (snd (_refresh_token rotate_answers wg)).
Proof.
  intros Ha. split_agreeing wp wg Ha Hlen.
  rewrite !refresh_token_eq. cbv zeta. cbn [_token_state sent].
  rewrite <- Hlen.
  destruct (nonempty (refresh_token ts));
    [|split; [reflexivity|]; apply in_step_silent;
      [repeat split; exact Hlen | reflexivity | reflexivity]].
  assert (Hsent : forall wp' wg',
            _token_state wp' = _token_state wg' ->
            environ wp' = environ wg' ->
            env_file wp' = env_file wg' ->
            stdout wp' = stdout wg' ->
            sent wp' = sp ++ [rotate_request (refresh_token ts)] ->
            sent wg' = sg ++ [rotate_request (refresh_token ts)] ->
            in_step (mkWorld ts env file out sp) (mkWorld ts env file out sg)
              wp' wg').
  { intros wp' wg' H1 H2 H3 H4 Hp Hg. split.
    - repeat split; try assumption. rewrite Hp, Hg, !length_app, Hlen.
      reflexivity.
    - eexists _, _. split; [exact Hp|]. split; [exact Hg|].
      constructor; constructor. }
  destruct (rotate_answers (length sp)) as [|[|[|d]]];
    try (split; [reflexivity|]; apply Hsent; reflexivity).
  destruct (truthy (rot_ok d));
    [|split; [reflexivity|]; apply Hsent; reflexivity].
  destruct (nonempty (default "" (rot_token d)));
    [|split; [reflexivity|]; apply Hsent; reflexivity].
  rewrite !rotated_eq. cbn [env_file add_sent].
  destruct (file_failure file); (split; [reflexivity|]);
    apply Hsent; reflexivity.
Qed.

Lemma params_or_empty_default (params : option (gmap string pyval)) :
  params_or_empty params = default ∅ params.
Proof.
  destruct params as [d|]; [|reflexivity].
  unfold params_or_empty, truthy. case_bool_decide; subst; reflexivity.
Qed.

Lemma token_expired_signal (data : gmap string pyval) :
  token_expired data = expiry_signal data.
Proof.
  unfold token_expired, expiry_signal, dict_get.
  destruct (data !! "ok"); destruct (data !! "error") as [[]|]; reflexivity.
Qed.

Lemma post_request_attempt (token endpoint : string)
    (params : option (gmap string pyval)) :
  post_request token endpoint params
  = attempt_request POST token endpoint params.
Proof.
  unfold post_request, attempt_request.
  rewrite params_or_empty_default. reflexivity.
Qed.

Lemma get_request_attempt (token endpoint : string)
    (params : option (gmap string pyval)) :
  get_request token endpoint params
  = attempt_request GET token endpoint params.
Proof.
  unfold get_request, attempt_request.
  rewrite params_or_empty_default. reflexivity.
Qed.

Lemma post_exchange_attempt (endpoint : string)
    (params : option (gmap string pyval)) (w : World) :
  post_exchange api_answers endpoint params w
  = attempt api_answers POST endpoint params w.
Proof.
  unfold post_exchange, attempt. cbv zeta.
  rewrite params_or_empty_default. reflexivity.
Qed.

Lemma get_exchange_attempt (endpoint : string)
    (params : option (gmap string pyval)) (w : World) :
  get_exchange api_answers endpoint params w
  = attempt api_answers GET endpoint params w.
Proof.
  unfold get_exchange, attempt. cbv zeta.
  rewrite params_or_empty_default. reflexivity.
Qed.

Lemma post_dispatch (endpoint : string)
    (params : option (gmap string pyval)) (retry : bool) (w : World) :
  _post json_dumps api_answers rotate_answers endpoint params retry w
  = dispatch json_dumps api_answers rotate_answers
      POST endpoint params retry w.
Proof.
  rewrite post_unfold, post_exchange_attempt. unfold dispatch at 1, bind at 1.
  destruct (attempt api_answers POST endpoint params w) as [[data|e] w1];
    [|reflexivity].
  rewrite token_expired_signal.
  destruct (expiry_signal data && retry); [|reflexivity].
  unfold bind at 1.
  destruct (_refresh_token rotate_answers w1) as [[[|]|e] w2];
    try reflexivity.
  rewrite post_unfold, post_exchange_attempt. unfold bind.
  destruct (attempt api_answers POST endpoint params w2) as [[data2|e] w3];
    [rewrite andb_false_r|]; reflexivity.
Qed.

Lemma get_dispatch (endpoint : string)
    (params : option (gmap string pyval)) (retry : bool) (w : World) :
  _get json_dumps api_answers rotate_answers endpoint params retry w
  = dispatch json_dumps api_answers rotate_answers
      GET endpoint params retry w.
Proof.
  rewrite get_unfold, get_exchange_attempt. unfold dispatch at 1, bind at 1.
  destruct (attempt api_answers GET endpoint params w) as [[data|e] w1];
    [|reflexivity].
  rewrite token_expired_signal.
  destruct (expiry_signal data && retry); [|reflexivity].
  unfold bind at 1.
  destruct (_refresh_token rotate_answers w1) as [[[|]|e] w2];
    try reflexivity.
  rewrite get_unfold, get_exchange_attempt. unfold bind.
  destruct (attempt api_answers GET endpoint params w2) as [[data2|e] w3];
    [rewrite andb_false_r|]; reflexivity.
Qed.

Lemma last_attempt_agree (endpoint : string)
    (params : option (gmap string pyval)) (wp wg : World) :
  agree wp wg ->
  fst (_post json_dumps api_answers rotate_answers endpoint params false wp)
  = fst (_get json_dumps api_answers rotate_answers endpoint params false wg)
  /\ in_step wp wg
       (snd (_post json_dumps api_answers rotate_answers
               endpoint params false wp))
       (snd (_get json_dumps api_answers rotate_answers
               endpoint params false wg)).
Proof.
  intros Ha. rewrite post_unfold, get_unfold.
  destruct (exchange_agree endpoint params wp wg Ha) as [Hf Hs].
  destruct (post_exchange api_answers endpoint params wp) as [[dp|ep] wp1],
           (get_exchange api_answers endpoint params wg) as [[dg|eg] wg1];
    cbn [fst snd] in *; try discriminate.
  - injection Hf as ->. rewrite andb_false_r. split; [reflexivity | exact Hs].
  - injection Hf as ->. split; [reflexivity | exact Hs].
Qed.

Lemma dispatch_agree (endpoint : string)
    (params : option (gmap string pyval)) (retry : bool) (wp wg : World) :
  agree wp wg ->
  fst (_post json_dumps api_answers rotate_answers endpoint params retry wp)
  = fst (_get json_dumps api_answers rotate_answers endpoint params retry wg)
  /\ in_step wp wg
       (snd (_post json_dumps api_answers rotate_answers
               endpoint params retry wp))
       (snd (_get json_dumps api_answers rotate_answers
               endpoint params retry wg)).
Proof.
  intros Ha. destruct retry; [|apply last_attempt_agree; exact Ha].
  rewrite post_unfold, get_unfold.
  destruct (exchange_agree endpoint params wp wg Ha) as [Hf Hs].
  destruct (post_exchange api_answers endpoint params wp) as [[dp|ep] wp1],
           (get_exchange api_answers endpoint params wg) as [[dg|eg] wg1];
    cbn [fst snd] in *; try discriminate;
    [|injection Hf as ->; split; [reflexivity | exact Hs]].
  injection Hf as ->. rewrite andb_true_r.
  destruct (token_expired dg); [|split; [reflexivity | exact Hs]].
  destruct (refresh_token_agree wp1 wg1 (proj1 Hs)) as [Hrf Hrs].
  pose proof (in_step_trans _ _ _ _ _ _ Hs Hrs) as Hs2.
  destruct (_refresh_token rotate_answers wp1) as [[[|]|ep] wp2],
           (_refresh_token rotate_answers wg1) as [[[|]|eg] wg2];
    cbn [fst snd] in *; try discriminate.
  - destruct (last_attempt_agree endpoint params wp2 wg2 (proj1 Hrs))
      as [Hlf Hls].
    split; [exact Hlf|]. exact (in_step_trans _ _ _ _ _ _ Hs2 Hls).
  - split; [reflexivity | exact Hs2].
  - injection Hrf as ->. split; [reflexivity | exact Hs2].
Qed.

End SideBySide.

(** C10. [_post] and [_get] are the one dispatcher [dispatch] at the verbs
    [POST] and [GET], for every endpoint, parameter mapping, retry flag,
    state and sequence of platform answers.  Both therefore read the
    credential through [_get_token], attach the bearer header, send the
    caller's mapping (as JSON body and as query string), take an answer
    for an expiry signal exactly when its success flag is false, its
    error code is [token_expired] and a retry is still allowed, then
    rotate and, when the rotation returns true, repeat the call once with
    no retry left, and wrap the final answer in the same text container.
    Run from the same state against the same answers they return the
    same result or raise the same error and leave the same pair,
    environment, config file and output; the requests they send
    correspond one to one, an API call of the one to an API call of the
    other with the same URL, bearer header and parameters (the POST
    adding only its content type), and a rotation call to the same
    rotation call; among them is at most one rotation call. *)
Theorem post_get_equivalent
    (json_dumps : gmap string pyval -> string)
    (api_answers : nat -> Exchange (gmap string pyval))
    (rotate_answers : nat -> Exchange RotateData)
    (endpoint : string) (params : option (gmap string pyval))
    (retry : bool) (w : World) :
  let rp := _post json_dumps api_answers rotate_answers
              endpoint params retry w in
  let rg := _get json_dumps api_answers rotate_answers
              endpoint params retry w in
  rp = dispatch json_dumps api_answers rotate_answers
         POST endpoint params retry w
  /\ rg = dispatch json_dumps api_answers rotate_answers
            GET endpoint params retry w
  /\ fst rp = fst rg
  /\ _token_state (snd rp) = _token_state (snd rg)
  /\ environ (snd rp) = environ (snd rg)
  /\ env_file (snd rp) = env_file (snd rg)
  /\ stdout (snd rp) = stdout (snd rg)
  /\ exists np ng,
       sent (snd rp) = sent w ++ np
       /\ sent (snd rg) = sent w ++ ng
       /\ Forall2 same_call np ng
       /\ rotation_calls np <= 1.
Proof.
  cbv zeta.
  split; [apply post_dispatch|]. split; [apply get_dispatch|].
  destruct (dispatch_agree json_dumps api_answers rotate_answers
              endpoint params retry w w) as [Hf [Ha Hs]].
  { repeat split. }
  destruct Ha as (Hts & Henv & Hfile & Hout & _).
  repeat (split; [assumption|]).
  destruct Hs as (np & ng & Hp & Hg & Hsame).
  exists np, ng. repeat (split; [assumption|]).
  destruct (post_sends json_dumps api_answers rotate_answers
              endpoint params retry w) as (new & Hnew & _ & Hrot).
  rewrite Hp in Hnew. apply app_inv_head in Hnew. subst new.
  destruct retry; lia.
Qed.

(** The dispatcher on the two scenarios of an expired credential: the
    rotation is granted and the call repeated with the new credential,
    and no refresh credential is held and the expiry answer surfaces. *)
Example dispatch_rotates_and_retries :
  dispatch sample_dumps expired_once rotation_grants
    GET "conversations.list" (Some {[ "limit" := PInt 5 ]}) true sample_world
  = (Returned [mkTextContent "text" "{other}"],
     mkWorld (mkTokenState "AAA" "r2") ∅
       (Writable
          (join_lines
             ["A=1"; "SLACK_TOKEN=AAA"; "B=2"; "SLACK_REFRESH_TOKEN=r2"]))
       ["Token refreshed successfully"]
       [HttpGet "https://slack.com/api/conversations.list"
          [("Authorization", "Bearer xoxe.xoxp-1")] {[ "limit" := PInt 5 ]};
        rotate_request "r1";
        HttpGet "https://slack.com/api/conversations.list"
          [("Authorization", "Bearer AAA")] {[ "limit" := PInt 5 ]}]).
Proof. reflexivity. Qed.

(** ** Scenarios *)

Example classify_samples :
  map _get_token_type
    ["xoxb-1"; "xoxp-1"; "xoxe.xoxp-1"; "xoxe.xoxb-1"; "xapp-1"; "xoxe-1"; ""]
  = ["bot"; "user"; "user_rotatable"; "bot_rotatable"; "app_level";
     "unknown"; "unknown"].
Proof. reflexivity. Qed.

Example rewrite_collapses_aliases :
  rewrite_env_lines "AAA" "r2" sample_lines
  = ["A=1"; "SLACK_TOKEN=AAA"; "B=2"; "SLACK_REFRESH_TOKEN=r2"].
Proof. reflexivity. Qed.

Example rewrite_appends_when_absent :
  rewrite_env_lines "AAA" "" ["A=1"; "SLACK_TOKEN_TTL=3"]
  = ["A=1"; "SLACK_TOKEN_TTL=3"; "SLACK_TOKEN=AAA"].
Proof. reflexivity. Qed.

(** A valid credential: the answer is passed on, nothing is retried. *)
Example success_is_passed_through :
  _post sample_dumps always_ok rotation_grants
    "chat.postMessage" None true loaded_world
  = (Returned [mkTextContent "text" "{other}"],
     add_sent (post_request "xoxb-live" "chat.postMessage" None)
       loaded_world).
Proof. reflexivity. Qed.

(** Expiry, a rotation that grants (AAA, r2), then success: the caller
    gets the success payload and the store holds AAA. *)
Example rotation_then_success :
  _get sample_dumps expired_once rotation_grants
    "conversations.info" None true sample_world
  = (Returned [mkTextContent "text" "{other}"],
     mkWorld (mkTokenState "AAA" "r2") ∅
       (Writable
          (join_lines
             ["A=1"; "SLACK_TOKEN=AAA"; "B=2"; "SLACK_REFRESH_TOKEN=r2"]))
       ["Token refreshed successfully"]
       [get_request "xoxe.xoxp-1" "conversations.info" None;
        rotate_request "r1";
        get_request "AAA" "conversations.info" None]).
Proof. reflexivity. Qed.

(** A rotation that is refused: the expiry payload is what the caller
    gets, and the store is as it was. *)
Example refused_rotation_keeps_store :
  let refused (n : nat) : Exchange RotateData :=
    Response (Json (Object
      (mkRotateData (PBool false) None None (Some "invalid_refresh_token"))))
  in
  _post sample_dumps always_expired refused
    "chat.postMessage" None true sample_world
  = (Returned [mkTextContent "text" "{expired}"],
     mkWorld (mkTokenState "xoxe.xoxp-1" "r1") ∅
       (Writable (join_lines sample_lines))
       ["Token refresh failed: invalid_refresh_token"]
       [post_request "xoxe.xoxp-1" "chat.postMessage" None;
        rotate_request "r1"]).
Proof. reflexivity. Qed.

(** ** Further properties: the config file *)

Lemma access_line_not_refresh (line : string) :
  is_access_line line = true -> is_refresh_line line = false.
Proof.
  rewrite is_access_line_key. unfold has_key.
  destruct (line_key line) as [k|] eqn:E; [|discriminate].
  intros Hk. apply not_true_is_false. intros Hr.
  apply (line_key_startswith "SLACK_REFRESH_TOKEN" eq_refl) in Hr.
  rewrite E in Hr. injection Hr as ->. discriminate.
Qed.

Lemma save_loop_rewritten (access refresh : string) (lines : list string) :
  forall st,
    let st' := fold_left (save_loop_body access refresh) lines st in
    new_lines st'
    = new_lines st ++ rewritten access refresh (found_access st) lines
    /\ found_access st' = found_access st || existsb is_access_line lines
    /\ found_refresh st'
       = found_refresh st || existsb is_refresh_line lines.
Proof.
  induction lines as [|line lines IH]; intros st; cbn [fold_left].
  - cbn. rewrite app_nil_r, !orb_false_r. repeat split.
  - destruct (IH (save_loop_body access refresh st line)) as (Hn & Ha & Hr).
    cbv zeta. rewrite Hn, Ha, Hr. clear IH Hn Ha Hr.
    unfold save_loop_body. cbn [rewritten existsb].
    change (startswith_any line access_prefixes) with (is_access_line line).
    change (startswith line "SLACK_REFRESH_TOKEN=") with (is_refresh_line line).
    destruct (is_access_line line) eqn:Ea.
    + rewrite (access_line_not_refresh line Ea).
      destruct (found_access st) eqn:Ef; cbn.
      * rewrite Ef. repeat split.
      * rewrite <- app_assoc. repeat split.
    + destruct (is_refresh_line line) eqn:Er; cbn;
        rewrite <- app_assoc, ?orb_true_r; repeat split.
Qed.

Lemma rewrite_env_lines_eq (access refresh : string) (lines : list string) :
  rewrite_env_lines access refresh lines
  = rewritten access refresh false lines
    ++ (if existsb is_access_line lines then []
        else [("SLACK_TOKEN=" ++ access)%string])
    ++ (if negb (existsb is_refresh_line lines) && nonempty refresh
        then [("SLACK_REFRESH_TOKEN=" ++ refresh)%string] else []).
Proof.
  unfold rewrite_env_lines.
  destruct (save_loop_rewritten access refresh lines
              (mkSaveLoop [] false false)) as (Hn & Ha & Hr).
  cbv zeta in *. rewrite Hn, Ha, Hr. cbn [new_lines found_access
    found_refresh orb app].
  destruct (existsb is_access_line lines); cbn [negb];
    destruct (negb (existsb is_refresh_line lines) && nonempty refresh);
    rewrite ?app_nil_r, <- ?app_assoc; reflexivity.
Qed.

Lemma access_line_written (access : string) :
  is_access_line ("SLACK_TOKEN=" ++ access)%string = true.
Proof. exact (canonical_is_access access). Qed.

Lemma refresh_line_written (refresh : string) :
  is_refresh_line ("SLACK_REFRESH_TOKEN=" ++ refresh)%string = true.
Proof. exact (refreshed_is_refresh refresh). Qed.

Lemma refresh_line_written_not_access (refresh : string) :
  is_access_line ("SLACK_REFRESH_TOKEN=" ++ refresh)%string = false.
Proof. reflexivity. Qed.

Lemma access_line_written_not_refresh (access : string) :
  is_refresh_line ("SLACK_TOKEN=" ++ access)%string = false.
Proof. reflexivity. Qed.

Ltac line_tests :=
  repeat first
    [ rewrite access_line_written
    | rewrite refresh_line_written
    | rewrite refresh_line_written_not_access
    | rewrite access_line_written_not_refresh ].

Lemma rewritten_app (access refresh : string) (l1 l2 : list string) :
  forall found,
    rewritten access refresh found (l1 ++ l2)
    = rewritten access refresh found l1
      ++ rewritten access refresh (found || existsb is_access_line l1) l2.
Proof.
  induction l1 as [|line l1 IH]; intros found; cbn [rewritten existsb app].
  - rewrite orb_false_r. reflexivity.
  - destruct (is_access_line line); cbn [orb].
    + rewrite IH, orb_true_r. destruct found; reflexivity.
    + destruct (is_refresh_line line); rewrite IH; reflexivity.
Qed.

Lemma rewritten_twice (a1 r1 a2 r2 : string) (lines : list string) :
  forall found,
    rewritten a2 r2 found (rewritten a1 r1 found lines)
    = rewritten a2 r2 found lines.
Proof.
  induction lines as [|line lines IH]; intros found; [reflexivity|].
  cbn [rewritten]. destruct (is_access_line line) eqn:Ea.
  - destruct found; [apply IH|].
    cbn [rewritten]. rewrite (access_line_written a1), IH. reflexivity.
  - destruct (is_refresh_line line) eqn:Er; cbn [rewritten].
    + rewrite (refresh_line_written_not_access r1), (refresh_line_written r1), IH.
      reflexivity.
    + rewrite Ea, Er, IH. reflexivity.
Qed.

Lemma existsb_access_rewritten (access refresh : string)
    (lines : list string) :
  forall found,
    existsb is_access_line (rewritten access refresh found lines)
    = negb found && existsb is_access_line lines.
Proof.
  induction lines as [|line lines IH]; intros found; cbn [rewritten existsb].
  - apply eq_sym, andb_false_r.
  - destruct (is_access_line line) eqn:Ea; cbn [orb].
    + destruct found; cbn [existsb negb andb].
      * apply IH.
      * rewrite (access_line_written access). reflexivity.
    + destruct (is_refresh_line line); cbn [existsb].
      * rewrite (refresh_line_written_not_access refresh). apply IH.
      * rewrite Ea. apply IH.
Qed.

Lemma existsb_refresh_rewritten (access refresh : string)
    (lines : list string) :
  forall found,
    existsb is_refresh_line (rewritten access refresh found lines)
    = existsb is_refresh_line lines.
Proof.
  induction lines as [|line lines IH]; intros found; cbn [rewritten existsb];
    [reflexivity|].
  destruct (is_access_line line) eqn:Ea.
  - rewrite (access_line_not_refresh line Ea). cbn [orb].
    destruct found; cbn [existsb]; rewrite IH; reflexivity.
  - destruct (is_refresh_line line) eqn:Er; cbn [existsb orb].
    + rewrite (refresh_line_written refresh). reflexivity.
    + rewrite Er. apply IH.
Qed.

Lemma rewrite_env_lines_twice (a1 r1 a2 r2 : string) (lines : list string) :
  existsb is_refresh_line lines = true \/ r1 = "" \/ r2 <> "" ->
  rewrite_env_lines a2 r2 (rewrite_env_lines a1 r1 lines)
  = rewrite_env_lines a2 r2 lines.
Proof.
  intros Hcase.
  rewrite (rewrite_env_lines_eq a2 r2 (rewrite_env_lines a1 r1 lines)).
  rewrite (rewrite_env_lines_eq a2 r2 lines).
  rewrite (rewrite_env_lines_eq a1 r1 lines).
  rewrite !rewritten_app, !existsb_app, rewritten_twice.
  rewrite existsb_access_rewritten, existsb_refresh_rewritten.
  cbn [negb andb orb].
  assert (H1 : nonempty r1 = false \/ nonempty r1 = true)
    by (destruct (nonempty r1); auto).
  assert (H2 : nonempty r2 = false \/ nonempty r2 = true)
    by (destruct (nonempty r2); auto).
  assert (Hno : existsb is_refresh_line lines = false ->
                nonempty r1 = true -> nonempty r2 = true).
  { intros Hx Hr1. destruct Hcase as [Hc|[Hc|Hc]].
    - congruence.
    - apply nonempty_true in Hr1. contradiction.
    - apply nonempty_true. exact Hc. }
  destruct (existsb is_access_line lines) eqn:Ea;
    destruct (existsb is_refresh_line lines) eqn:Er;
    cbn [negb andb orb existsb rewritten app];
    try rewrite (access_line_written a1);
    cbn [negb andb orb existsb rewritten app];
    rewrite ?app_nil_r; try reflexivity.
  - destruct H1 as [E1|E1]; rewrite E1.
    + cbn [negb andb orb existsb rewritten app].
      rewrite ?app_nil_r. reflexivity.
    + rewrite (Hno eq_refl E1).
      cbn [negb andb orb existsb rewritten app]. line_tests.
      cbn [negb andb orb existsb rewritten app].
      rewrite ?app_nil_r. reflexivity.
  - destruct H1 as [E1|E1]; rewrite E1.
    + cbn [negb andb orb existsb rewritten app]. line_tests.
      cbn [negb andb orb existsb rewritten app].
      rewrite <- ?app_assoc. cbn [app]. rewrite ?app_nil_r. reflexivity.
    + rewrite (Hno eq_refl E1).
      cbn [negb andb orb existsb rewritten app]. line_tests.
      cbn [negb andb orb existsb rewritten app].
      rewrite <- ?app_assoc. cbn [app]. reflexivity.
Qed.

Lemma filter_refresh_rewritten (access refresh : string)
    (lines : list string) :
  forall found,
    List.filter is_refresh_line (rewritten access refresh found lines)
    = repeat ("SLACK_REFRESH_TOKEN=" ++ refresh)%string
        (length (List.filter is_refresh_line lines)).
Proof.
  induction lines as [|line lines IH]; intros found; [reflexivity|].
  cbn [rewritten List.filter]. destruct (is_access_line line) eqn:Ea.
  - rewrite (access_line_not_refresh line Ea).
    destruct found; cbn [List.filter]; line_tests; apply IH.
  - destruct (is_refresh_line line) eqn:Er; cbn [List.filter].
    + line_tests. cbn [length repeat]. rewrite IH. reflexivity.
    + rewrite Er. apply IH.
Qed.

Lemma filter_refresh_rewrite_env_lines (access refresh : string)
    (lines : list string) :
  List.filter is_refresh_line (rewrite_env_lines access refresh lines)
  = repeat ("SLACK_REFRESH_TOKEN=" ++ refresh)%string
      (length (List.filter is_refresh_line lines))
    ++ (if negb (existsb is_refresh_line lines) && nonempty refresh
        then [("SLACK_REFRESH_TOKEN=" ++ refresh)%string] else []).
Proof.
  rewrite rewrite_env_lines_eq, !List.filter_app, filter_refresh_rewritten.
  f_equal.
  destruct (existsb is_access_line lines); cbn [List.filter]; line_tests;
    destruct (negb (existsb is_refresh_line lines) && nonempty refresh);
    cbn [List.filter app]; line_tests; reflexivity.
Qed.

(** X1. When the config file can be read and written and neither new
    token holds a line boundary, every line of the rewritten file with
    the refresh key reads [SLACK_REFRESH_TOKEN=<new value>]; there are as
    many of them as before (the refresh key, unlike the access key, is
    not collapsed), and one is appended exactly when there was none and
    the new refresh token is not empty. *)
Theorem refresh_lines_rewritten_in_place (w : World)
    (content access refresh : string) :
  env_file w = Writable content ->
  no_break access = true ->
  no_break refresh = true ->
  exists new_content,
    env_file (snd (_save_tokens_to_env access refresh w))
    = Writable new_content
    /\ List.filter is_refresh_line (splitlines new_content)
       = repeat ("SLACK_REFRESH_TOKEN=" ++ refresh)%string
           (length (List.filter is_refresh_line (splitlines content)))
         ++ (if negb (existsb is_refresh_line (splitlines content))
                && nonempty refresh
             then [("SLACK_REFRESH_TOKEN=" ++ refresh)%string] else []).
Proof.
  intros Hfile Ha Hr.
  exists (join_lines (rewrite_env_lines access refresh (splitlines content))).
  split.
  - rewrite save_tokens_to_env_eq, Hfile. reflexivity.
  - rewrite (rewritten_lines_read_back access refresh content Ha Hr).
    apply filter_refresh_rewrite_env_lines.
Qed.

Lemma refresh_lines_rewritten_in_place_witness :
  exists new_content,
    env_file (snd (_save_tokens_to_env "AAA" "r2" sample_world))
    = Writable new_content
    /\ List.filter is_refresh_line (splitlines new_content)
       = ["SLACK_REFRESH_TOKEN=r2"].
Proof.
  apply (refresh_lines_rewritten_in_place sample_world
           (join_lines sample_lines) "AAA" "r2").
  - reflexivity.
  - reflexivity.
  - reflexivity.
Defined.

Lemma persist_twice (a1 r1 a2 r2 : string) (w : World) :
  no_break a1 = true -> no_break r1 = true ->
  r1 = "" \/ r2 <> "" ->
  _save_tokens_to_env a2 r2 (snd (_save_tokens_to_env a1 r1 w))
  = _save_tokens_to_env a2 r2 w.
Proof.
  intros Ha Hr Hcase. rewrite (save_tokens_to_env_eq a1 r1 w). cbv zeta.
  rewrite !save_tokens_to_env_eq. cbv zeta.
  destruct (env_file w) as [| |text|content] eqn:E; cbn [snd];
    cbn [env_file set_token_state set_env_file]; rewrite ?E;
    try reflexivity.
  rewrite (rewritten_lines_read_back a1 r1 content Ha Hr).
  rewrite rewrite_env_lines_twice; [reflexivity|].
  right. exact Hcase.
Qed.

(** X2. Persisting the same pair twice is the same as persisting it
    once, when neither token holds a line boundary: the second call has
    the outcome of the first and leaves the pair and the file as the
    first call left them. *)
Theorem persist_idempotent (access refresh : string) (w : World) :
  no_break access = true ->
  no_break refresh = true ->
  _save_tokens_to_env access refresh
    (snd (_save_tokens_to_env access refresh w))
  = _save_tokens_to_env access refresh w.
Proof.
  intros Ha Hr. apply persist_twice; [exact Ha | exact Hr |].
  destruct (String.eqb_spec refresh ""); auto.
Qed.

Lemma persist_idempotent_witness :
  _save_tokens_to_env "AAA" "r2"
    (snd (_save_tokens_to_env "AAA" "r2" sample_world))
  = _save_tokens_to_env "AAA" "r2" sample_world.
Proof.
  apply (persist_idempotent "AAA" "r2" sample_world); reflexivity.
Defined.

(** X3. A persist followed by a persist of another pair leaves what the
    second persist alone would leave, provided the tokens of the first
    hold no line boundary and the first refresh token is empty or the
    second is not. *)
Theorem persist_last_write_wins (a1 r1 a2 r2 : string) (w : World) :
  no_break a1 = true ->
  no_break r1 = true ->
  r1 = "" \/ r2 <> "" ->
  _save_tokens_to_env a2 r2 (snd (_save_tokens_to_env a1 r1 w))
  = _save_tokens_to_env a2 r2 w.
Proof. apply persist_twice. Qed.

Lemma persist_last_write_wins_witness :
  _save_tokens_to_env "BBB" "r3"
    (snd (_save_tokens_to_env "AAA" "r2" sample_world))
  = _save_tokens_to_env "BBB" "r3" sample_world.
Proof.
  apply (persist_last_write_wins "AAA" "r2" "BBB" "r3" sample_world).
  - reflexivity.
  - reflexivity.
  - right. discriminate.
Defined.

(** A token with a line feed breaks both: every further persist of the
    same pair adds a line to the file. *)
Example persist_line_break_token_grows :
  env_file (snd (_save_tokens_to_env stray_line_token ""
                   (snd (_save_tokens_to_env stray_line_token ""
                           one_line_world))))
  = Writable (join_lines ["A=1"; "SLACK_TOKEN=AAA"; "X=1"; "X=1"])
  /\ env_file (snd (_save_tokens_to_env stray_line_token ""
                      one_line_world))
     = Writable (join_lines ["A=1"; "SLACK_TOKEN=AAA"; "X=1"]).
Proof. split; reflexivity. Qed.

(** Without the proviso the first persist shows through: the refresh
    line it appended stays, with an empty value. *)
Example persist_stale_refresh_line :
  rewrite_env_lines "BBB" "" (rewrite_env_lines "AAA" "r2" ["A=1"])
  = ["A=1"; "SLACK_TOKEN=BBB"; "SLACK_REFRESH_TOKEN="]
  /\ rewrite_env_lines "BBB" "" ["A=1"] = ["A=1"; "SLACK_TOKEN=BBB"].
Proof. split; reflexivity. Qed.

(** X4. The loop treats a line as an access line exactly when the text
    before its first [=] is one of [SLACK_TOKEN], [SLACK_BOT_TOKEN],
    [SLACK_USER_TOKEN], and as a refresh line exactly when it is
    [SLACK_REFRESH_TOKEN]; a line cannot be both. *)
Theorem credential_line_iff_key (line : string) :
  (is_access_line line = true
   <-> exists k, line_key line = Some k /\ In k access_keys)
  /\ (is_refresh_line line = true
      <-> line_key line = Some "SLACK_REFRESH_TOKEN")
  /\ ~ (is_access_line line = true /\ is_refresh_line line = true).
Proof.
  split; [|split].
  - rewrite is_access_line_key. unfold has_key.
    destruct (line_key line) as [k|].
    + rewrite existsb_exists. split.
      * intros (k' & Hin & Heq). apply String.eqb_eq in Heq. subst k'.
        exists k. split; [reflexivity | exact Hin].
      * intros (k' & Heq & Hin). injection Heq as Hk. subst k'.
        exists k. split; [exact Hin | apply String.eqb_refl].
    + split; [discriminate | intros (k & Heq & _); discriminate].
  - symmetry. apply (line_key_startswith "SLACK_REFRESH_TOKEN" eq_refl).
  - intros [Ha Hr]. rewrite (access_line_not_refresh line Ha) in Hr.
    discriminate.
Qed.

(** ** Further properties: the store *)

Lemma user_kind_by_prefix (token : string) :
  in_user_kinds (_get_token_type token)
  = startswith token "xoxp-" || startswith token "xoxe.xoxp-".
Proof.
  unfold _get_token_type.
  destruct (startswith token "xoxb-") eqn:E1.
  { apply startswith_app in E1 as [t ->]. reflexivity. }
  destruct (startswith token "xoxp-") eqn:E2; [reflexivity|].
  destruct (startswith token "xoxe.xoxp-") eqn:E3; [reflexivity|].
  destruct (startswith token "xoxe.xoxb-"); [reflexivity|].
  destruct (startswith token "xapp-"); reflexivity.
Qed.

(** X6. When a token is available, [_is_user_token] returns whether it
    starts with [xoxp-] or with [xoxe.xoxp-]; in particular a rotatable
    bot token ([xoxe.xoxb-]) is not a user token. *)
Theorem is_user_token_by_prefix (w w' : World) (token : string) :
  _get_token w = (Returned token, w') ->
  _is_user_token w
  = (Returned (startswith token "xoxp-" || startswith token "xoxe.xoxp-"),
     w')
  /\ (startswith token "xoxe.xoxb-" = true ->
      _is_user_token w = (Returned false, w')).
Proof.
  intros Hget. unfold _is_user_token, bind. rewrite Hget. unfold ret.
  rewrite user_kind_by_prefix. split; [reflexivity|].
  intros Hb. apply startswith_app in Hb as [t ->]. reflexivity.
Qed.

Lemma is_user_token_by_prefix_witness :
  _is_user_token unloaded_world
  = (Returned true,
     set_token_state (mkTokenState "xoxp-7" "") unloaded_world).
Proof.
  apply (proj1 (is_user_token_by_prefix unloaded_world
                  (set_token_state (mkTokenState "xoxp-7" "") unloaded_world)
                  "xoxp-7" eq_refl)).
Defined.

(** X7. [_get_token] changes nothing but the pair, and asking again
    gives the same answer and changes nothing more: a token that was
    returned is returned again, an error that was raised is raised
    again. *)
Theorem get_token_settles (w : World) :
  environ (snd (_get_token w)) = environ w
  /\ env_file (snd (_get_token w)) = env_file w
  /\ stdout (snd (_get_token w)) = stdout w
  /\ sent (snd (_get_token w)) = sent w
  /\ _get_token (snd (_get_token w)) = _get_token w.
Proof.
  rewrite (get_token_eq w). cbv zeta.
  destruct (nonempty (access_token (_token_state w))) eqn:E.
  - cbn [snd]. repeat split. rewrite get_token_eq, E. reflexivity.
  - destruct (nonempty (first_nonempty (access_sources (environ w)))) eqn:F;
      cbn [snd]; repeat split; rewrite get_token_eq; cbn; rewrite F;
      reflexivity.
Qed.

(** ** Further properties: rotation *)

Lemma refresh_token_granted
    (rotate_answers : nat -> Exchange RotateData) (w : World)
    (d : RotateData) :
  refresh_token (_token_state w) <> "" ->
  rotate_answers (length (sent w)) = Response (Json (Object d)) ->
  rotation_succeeds d = true ->
  _refresh_token rotate_answers w
  = rotated (default "" (rot_token d)) (default "" (rot_refresh_token d))
      (add_sent (rotate_request (refresh_token (_token_state w))) w).
Proof.
  intros Hr Hanswer Hok. apply nonempty_true in Hr.
  unfold rotation_succeeds in Hok. apply andb_true_iff in Hok as [Hok Htok].
  rewrite refresh_token_eq. cbv zeta. rewrite Hr, Hanswer, Hok, Htok.
  reflexivity.
Qed.

Lemma refresh_token_success
    (rotate_answers : nat -> Exchange RotateData) (w : World)
    (d : RotateData) :
  refresh_token (_token_state w) <> "" ->
  rotate_answers (length (sent w)) = Response (Json (Object d)) ->
  rotation_succeeds d = true ->
  file_failure (env_file w) = None ->
  _refresh_token rotate_answers w
  = (Returned true,
     mkWorld
       (mkTokenState (default "" (rot_token d))
          (default "" (rot_refresh_token d)))
       (environ w)
       (persisted_file (default "" (rot_token d))
          (default "" (rot_refresh_token d)) (env_file w))
       (stdout w ++ ["Token refreshed successfully"])
       (sent w ++ [rotate_request (refresh_token (_token_state w))])).
Proof.
  intros Hr Hanswer Hok Hfile.
  rewrite (refresh_token_granted rotate_answers w d Hr Hanswer Hok).
  rewrite rotated_eq. cbn [env_file add_sent]. rewrite Hfile. reflexivity.
Qed.

Lemma refresh_token_persist_fails
    (rotate_answers : nat -> Exchange RotateData) (w : World)
    (d : RotateData) (e : exn) :
  refresh_token (_token_state w) <> "" ->
  rotate_answers (length (sent w)) = Response (Json (Object d)) ->
  rotation_succeeds d = true ->
  file_failure (env_file w) = Some e ->
  _refresh_token rotate_answers w
  = (Raised e,
     set_token_state
       (mkTokenState (default "" (rot_token d))
          (default "" (rot_refresh_token d)))
       (add_sent (rotate_request (refresh_token (_token_state w))) w)).
Proof.
  intros Hr Hanswer Hok Hfile.
  rewrite (refresh_token_granted rotate_answers w d Hr Hanswer Hok).
  rewrite rotated_eq. cbn [env_file add_sent]. rewrite Hfile. reflexivity.
Qed.

(** X8. A rotation that is granted sends one rotation request carrying
    the old refresh token and replaces the pair in memory (with an empty
    refresh token if the answer has none).  If there is no config file,
    or one that can be read and written, it then returns [True], the
    file, if any, holds what the rewriting loop makes of its lines, and
    from then on [_get_token] returns the new access token, whatever the
    environment names.  If the config file exists and cannot be read or
    written, the error of the file operation leaves [_refresh_token]
    with the new pair already in memory and the file as it was. *)
Theorem rotation_installs_new_pair
    (rotate_answers : nat -> Exchange RotateData) (w : World)
    (d : RotateData) :
  refresh_token (_token_state w) <> "" ->
  rotate_answers (length (sent w)) = Response (Json (Object d)) ->
  rotation_succeeds d = true ->
  let access := default "" (rot_token d) in
  let refresh := default "" (rot_refresh_token d) in
  let request := rotate_request (refresh_token (_token_state w)) in
  (file_failure (env_file w) = None ->
     let w' :=
       mkWorld (mkTokenState access refresh) (environ w)
         (persisted_file access refresh (env_file w))
         (stdout w ++ ["Token refreshed successfully"])
         (sent w ++ [request]) in
     _refresh_token rotate_answers w = (Returned true, w')
     /\ _get_token w' = (Returned access, w'))
  /\ (forall e : exn,
      file_failure (env_file w) = Some e ->
      _refresh_token rotate_answers w
      = (Raised e,
         mkWorld (mkTokenState access refresh) (environ w) (env_file w)
           (stdout w) (sent w ++ [request]))).
Proof.
  intros Hr Hanswer Hok. cbv zeta. split; [intros Hfile | intros e Hfile].
  - split.
    + apply refresh_token_success; assumption.
    + apply andb_true_iff in Hok as [_ Htok]. apply nonempty_true in Htok.
      apply get_token_loaded. exact Htok.
  - apply refresh_token_persist_fails; assumption.
Qed.

Lemma rotation_installs_new_pair_witness :
  _refresh_token rotation_grants sample_world
  = (Returned true,
     mkWorld (mkTokenState "AAA" "r2") ∅
       (Writable
          (join_lines
             ["A=1"; "SLACK_TOKEN=AAA"; "B=2"; "SLACK_REFRESH_TOKEN=r2"]))
       ["Token refreshed successfully"] [rotate_request "r1"])
  /\ _refresh_token rotation_grants
       (set_env_file (Unreadable UnicodeError) sample_world)
     = (Raised UnicodeError,
        mkWorld (mkTokenState "AAA" "r2") ∅ (Unreadable UnicodeError) []
          [rotate_request "r1"]).
Proof.
  split.
  - apply (proj1 (rotation_installs_new_pair rotation_grants sample_world
                    (mkRotateData (PBool true) (Some "AAA") (Some "r2") None)
                    ltac:(discriminate) eq_refl eq_refl) eq_refl).
  - apply (proj2 (rotation_installs_new_pair rotation_grants
                    (set_env_file (Unreadable UnicodeError) sample_world)
                    (mkRotateData (PBool true) (Some "AAA") (Some "r2") None)
                    ltac:(discriminate) eq_refl eq_refl)
             UnicodeError eq_refl).
Defined.

(** X9. A rotation that succeeds with an answer that carries no new
    refresh token (or an empty one) is the last one: the stored refresh
    token is empty afterwards, and every later [_refresh_token] returns
    [False] without sending anything. *)
Theorem rotation_without_new_refresh_is_last
    (rotate_answers later_answers : nat -> Exchange RotateData)
    (w : World) (d : RotateData) :
  refresh_token (_token_state w) <> "" ->
  rotate_answers (length (sent w)) = Response (Json (Object d)) ->
  rotation_succeeds d = true ->
  default "" (rot_refresh_token d) = "" ->
  let w' := snd (_refresh_token rotate_answers w) in
  refresh_token (_token_state w') = ""
  /\ _refresh_token later_answers w'
     = (Returned false, add_stdout "No refresh token available" w').
Proof.
  intros Hr Hanswer Hok Hnone. cbv zeta.
  rewrite (refresh_token_granted rotate_answers w d Hr Hanswer Hok).
  destruct (rotated_frame (default "" (rot_token d))
              (default "" (rot_refresh_token d))
              (add_sent (rotate_request (refresh_token (_token_state w))) w))
    as (_ & _ & Hpair).
  split; [rewrite Hpair; exact Hnone|].
  rewrite refresh_token_eq. cbv zeta. rewrite Hpair.
  cbn [refresh_token]. rewrite Hnone. reflexivity.
Qed.

Lemma rotation_without_new_refresh_is_last_witness :
  refresh_token
    (_token_state (snd (_refresh_token rotation_grants_access_only
                          sample_world))) = ""
  /\ _refresh_token rotation_grants
       (snd (_refresh_token rotation_grants_access_only sample_world))
     = (Returned false,
        add_stdout "No refresh token available"
          (snd (_refresh_token rotation_grants_access_only sample_world))).
Proof.
  apply (rotation_without_new_refresh_is_last rotation_grants_access_only
           rotation_grants sample_world
           (mkRotateData (PBool true) (Some "AAA") None None)).
  - discriminate.
  - reflexivity.
  - reflexivity.
  - reflexivity.
Defined.

(** ** Further properties: dispatch *)

Section Attempts.

Variable json_dumps : gmap string pyval -> string.
Variable api_answers : nat -> Exchange (gmap string pyval).
Variable rotate_answers : nat -> Exchange RotateData.

Lemma post_last_attempt (endpoint : string)
    (params : option (gmap string pyval)) (w : World) :
  _post json_dumps api_answers rotate_answers endpoint params false w
  = match post_exchange api_answers endpoint params w with
    | (Returned data, w1) => (Returned (text_result json_dumps data), w1)
    | (Raised e, w1) => (Raised e, w1)
    end.
Proof.
  rewrite post_unfold.
  destruct (post_exchange api_answers endpoint params w) as [[data|e] w1];
    [rewrite andb_false_r|]; reflexivity.
Qed.

Lemma get_last_attempt (endpoint : string)
    (params : option (gmap string pyval)) (w : World) :
  _get json_dumps api_answers rotate_answers endpoint params false w
  = match get_exchange api_answers endpoint params w with
    | (Returned data, w1) => (Returned (text_result json_dumps data), w1)
    | (Raised e, w1) => (Raised e, w1)
    end.
Proof.
  rewrite get_unfold.
  destruct (get_exchange api_answers endpoint params w) as [[data|e] w1];
    [rewrite andb_false_r|]; reflexivity.
Qed.

Lemma post_exchange_answered (endpoint : string)
    (params : option (gmap string pyval)) (w w1 : World) (token : string) :
  _get_token w = (Returned token, w1) ->
  post_exchange api_answers endpoint params w
  = api_outcome api_answers (post_request token endpoint params) w1.
Proof. intros H. rewrite post_exchange_eq, H. reflexivity. Qed.

Lemma get_exchange_answered (endpoint : string)
    (params : option (gmap string pyval)) (w w1 : World) (token : string) :
  _get_token w = (Returned token, w1) ->
  get_exchange api_answers endpoint params w
  = api_outcome api_answers (get_request token endpoint params) w1.
Proof. intros H. rewrite get_exchange_eq, H. reflexivity. Qed.

Lemma post_after_expiry (endpoint : string)
    (params : option (gmap string pyval)) (w w1 : World) (token : string)
    (data : gmap string pyval) :
  _get_token w = (Returned token, w1) ->
  api_answers (length (sent w1)) = Response (Json (Object data)) ->
  token_expired data = true ->
  _post json_dumps api_answers rotate_answers endpoint params true w
  = match _refresh_token rotate_answers
            (add_sent (post_request token endpoint params) w1) with
    | (Returned true, w2) =>
        _post json_dumps api_answers rotate_answers endpoint params false w2
    | (Returned false, w2) => (Returned (text_result json_dumps data), w2)
    | (Raised e, w2) => (Raised e, w2)
    end.
Proof.
  intros Hget Hanswer Hexp.
  rewrite post_unfold, (post_exchange_answered _ _ _ _ _ Hget).
  unfold api_outcome. rewrite Hanswer, Hexp. reflexivity.
Qed.

End Attempts.

(** X10. With no credential in the store and none in the environment,
    [_post] and [_get] raise the missing-token error before anything is
    sent or printed; the only trace is the reload, which leaves the pair
    as the environment has it. *)
Theorem dispatch_without_credential
    (json_dumps : gmap string pyval -> string)
    (api_answers : nat -> Exchange (gmap string pyval))
    (rotate_answers : nat -> Exchange RotateData)
    (endpoint : string) (params : option (gmap string pyval))
    (retry : bool) (w : World) :
  access_token (_token_state w) = "" ->
  Forall (fun s => s = "") (access_sources (environ w)) ->
  let w' := set_token_state
              (mkTokenState "" (getenv (environ w) "SLACK_REFRESH_TOKEN")) w in
  _post json_dumps api_answers rotate_answers endpoint params retry w
  = (Raised (ValueError token_missing_msg), w')
  /\ _get json_dumps api_answers rotate_answers endpoint params retry w
     = (Raised (ValueError token_missing_msg), w')
  /\ sent w' = sent w /\ stdout w' = stdout w.
Proof.
  intros Hempty Hsources. cbv zeta.
  apply first_nonempty_empty in Hsources.
  assert (Hget : _get_token w
                 = (Raised (ValueError token_missing_msg),
                    set_token_state
                      (mkTokenState ""
                         (getenv (environ w) "SLACK_REFRESH_TOKEN")) w)).
  { rewrite get_token_eq. cbv zeta. rewrite Hempty, Hsources. reflexivity. }
  split; [|split; [|split; reflexivity]].
  - rewrite post_unfold, post_exchange_eq, Hget. reflexivity.
  - rewrite get_unfold, get_exchange_eq, Hget. reflexivity.
Qed.

Lemma dispatch_without_credential_witness :
  _post sample_dumps always_ok rotation_grants
    "auth.test" None true empty_world
  = (Raised (ValueError token_missing_msg), empty_world).
Proof.
  apply (dispatch_without_credential sample_dumps always_ok rotation_grants
           "auth.test" None true empty_world).
  - reflexivity.
  - repeat constructor.
Defined.

(** X11. An answer that is not an expiry signal (or any answer, when
    retrying is off) is handed back as it is after a single request:
    nothing is rotated, nothing is retried, and apart from the request
    log the world is as [_get_token] left it.  This holds for answers
    with [ok] false and another error, and for answers that carry
    [token_expired] next to a truthy [ok]. *)
Theorem dispatch_passes_answer_through
    (json_dumps : gmap string pyval -> string)
    (api_answers : nat -> Exchange (gmap string pyval))
    (rotate_answers : nat -> Exchange RotateData)
    (endpoint : string) (params : option (gmap string pyval))
    (retry : bool) (w w1 : World) (token : string)
    (data : gmap string pyval) :
  _get_token w = (Returned token, w1) ->
  api_answers (length (sent w1)) = Response (Json (Object data)) ->
  token_expired data && retry = false ->
  _post json_dumps api_answers rotate_answers endpoint params retry w
  = (Returned [mkTextContent "text" (json_dumps data)],
     add_sent (post_request token endpoint params) w1)
  /\ _get json_dumps api_answers rotate_answers endpoint params retry w
     = (Returned [mkTextContent "text" (json_dumps data)],
        add_sent (get_request token endpoint params) w1).
Proof.
  intros Hget Hanswer Hno. split.
  - rewrite post_unfold, (post_exchange_answered _ _ _ _ _ _ Hget).
    unfold api_outcome. rewrite Hanswer, Hno. reflexivity.
  - rewrite get_unfold, (get_exchange_answered _ _ _ _ _ _ Hget).
    unfold api_outcome. rewrite Hanswer, Hno. reflexivity.
Qed.

Lemma dispatch_passes_answer_through_witness :
  _post sample_dumps always_ok rotation_grants
    "chat.postMessage" None true loaded_world
  = (Returned [mkTextContent "text" "{other}"],
     add_sent (post_request "xoxb-live" "chat.postMessage" None)
       loaded_world).
Proof.
  apply (dispatch_passes_answer_through sample_dumps always_ok
           rotation_grants "chat.postMessage" None true
           loaded_world loaded_world "xoxb-live" ok_payload).
  - reflexivity.
  - reflexivity.
  - reflexivity.
Defined.

(** X12. When the API call itself fails (the platform cannot be reached,
    the body is not JSON, or the JSON is not an object), [_post] and
    [_get] raise after that one request: they neither retry nor rotate. *)
Theorem dispatch_raises_on_failed_exchange
    (json_dumps : gmap string pyval -> string)
    (api_answers : nat -> Exchange (gmap string pyval))
    (rotate_answers : nat -> Exchange RotateData)
    (endpoint : string) (params : option (gmap string pyval))
    (retry : bool) (w w1 : World) (token : string) :
  _get_token w = (Returned token, w1) ->
  forall e,
    match api_answers (length (sent w1)) with
    | TransportFailure => e = TransportError
    | Response NotJson => e = JSONDecodeError
    | Response (Json NotObject) => e = AttributeError
    | Response (Json (Object _)) => False
    end ->
    _post json_dumps api_answers rotate_answers endpoint params retry w
    = (Raised e, add_sent (post_request token endpoint params) w1)
    /\ _get json_dumps api_answers rotate_answers endpoint params retry w
       = (Raised e, add_sent (get_request token endpoint params) w1).
Proof.
  intros Hget e He.
  rewrite post_unfold, (post_exchange_answered _ _ _ _ _ _ Hget).
  rewrite get_unfold, (get_exchange_answered _ _ _ _ _ _ Hget).
  unfold api_outcome.
  destruct (api_answers (length (sent w1))) as [|[|[|d]]];
    [subst e; split; reflexivity .. | contradiction].
Qed.

Lemma dispatch_raises_on_failed_exchange_witness :
  _post sample_dumps api_unreachable rotation_grants
    "auth.test" None true loaded_world
  = (Raised TransportError,
     add_sent (post_request "xoxb-live" "auth.test" None) loaded_world).
Proof.
  apply (dispatch_raises_on_failed_exchange sample_dumps api_unreachable
           rotation_grants "auth.test" None true
           loaded_world loaded_world "xoxb-live" eq_refl TransportError).
  reflexivity.
Defined.

(** X13. After an expiry answer and a rotation that is granted: if there
    is no config file, or one that can be read and written, the call is
    sent once more with the new access token in its bearer header and
    the same endpoint and parameters, and whatever that second exchange
    gives is the result (its answer, be it another expiry signal, is
    returned; its failure is raised).  If the config file exists and
    cannot be read or written, [_post] raises the error of the file
    operation instead and does not send the call again. *)
Theorem retry_carries_rotated_token
    (json_dumps : gmap string pyval -> string)
    (api_answers : nat -> Exchange (gmap string pyval))
    (rotate_answers : nat -> Exchange RotateData)
    (endpoint : string) (params : option (gmap string pyval))
    (w w1 : World) (token : string) (data : gmap string pyval)
    (d : RotateData) :
  _get_token w = (Returned token, w1) ->
  api_answers (length (sent w1)) = Response (Json (Object data)) ->
  token_expired data = true ->
  refresh_token (_token_state w1) <> "" ->
  rotate_answers (length (sent w1) + 1) = Response (Json (Object d)) ->
  rotation_succeeds d = true ->
  let access := default "" (rot_token d) in
  let refresh := default "" (rot_refresh_token d) in
  let log :=
    (sent w1 ++ [post_request token endpoint params])
    ++ [rotate_request (refresh_token (_token_state w1))] in
  (file_failure (env_file w1) = None ->
     let w3 :=
       mkWorld (mkTokenState access refresh) (environ w1)
         (persisted_file access refresh (env_file w1))
         (stdout w1 ++ ["Token refreshed successfully"]) log in
     _post json_dumps api_answers rotate_answers endpoint params true w
     = match api_outcome api_answers
               (post_request access endpoint params) w3 with
       | (Returned data2, w4) =>
           (Returned [mkTextContent "text" (json_dumps data2)], w4)
       | (Raised e, w4) => (Raised e, w4)
       end)
  /\ (forall e : exn,
      file_failure (env_file w1) = Some e ->
      _post json_dumps api_answers rotate_answers endpoint params true w
      = (Raised e,
         mkWorld (mkTokenState access refresh) (environ w1) (env_file w1)
           (stdout w1) log)).
Proof.
  intros Hget Hanswer Hexp Hrefresh Hrot Hok. cbv zeta.
  assert (Hrot' : rotate_answers
                    (length (sent (add_sent
                                     (post_request token endpoint params)
                                     w1)))
                  = Response (Json (Object d))).
  { cbn [sent add_sent]. rewrite length_app. exact Hrot. }
  rewrite (post_after_expiry _ _ _ _ _ _ _ _ _ Hget Hanswer Hexp).
  split; [intros Hfile | intros e Hfile].
  - rewrite (refresh_token_success rotate_answers
               (add_sent (post_request token endpoint params) w1) d
               Hrefresh Hrot' Hok Hfile).
    rewrite post_last_attempt, post_exchange_eq.
    rewrite get_token_loaded.
    + reflexivity.
    + apply andb_true_iff in Hok as [_ Htok]. apply nonempty_true in Htok.
      exact Htok.
  - rewrite (refresh_token_persist_fails rotate_answers
               (add_sent (post_request token endpoint params) w1) d e
               Hrefresh Hrot' Hok Hfile).
    reflexivity.
Qed.

Lemma retry_carries_rotated_token_witness :
  _post sample_dumps always_expired rotation_grants
    "chat.postMessage" None true sample_world
  = (Returned [mkTextContent "text" "{expired}"],
     mkWorld (mkTokenState "AAA" "r2") ∅
       (Writable
          (join_lines
             ["A=1"; "SLACK_TOKEN=AAA"; "B=2"; "SLACK_REFRESH_TOKEN=r2"]))
       ["Token refreshed successfully"]
       [post_request "xoxe.xoxp-1" "chat.postMessage" None;
        rotate_request "r1";
        post_request "AAA" "chat.postMessage" None])
  /\ _post sample_dumps always_expired rotation_grants
       "chat.postMessage" None true
       (set_env_file (ReadOnly (join_lines sample_lines) OSError)
          sample_world)
     = (Raised OSError,
        mkWorld (mkTokenState "AAA" "r2") ∅
          (ReadOnly (join_lines sample_lines) OSError) []
          [post_request "xoxe.xoxp-1" "chat.postMessage" None;
           rotate_request "r1"]).
Proof.
  split.
  - apply (proj1 (retry_carries_rotated_token sample_dumps always_expired
                    rotation_grants "chat.postMessage" None
                    sample_world sample_world "xoxe.xoxp-1" expired_payload
                    (mkRotateData (PBool true) (Some "AAA") (Some "r2") None)
                    eq_refl eq_refl eq_refl ltac:(discriminate) eq_refl
                    eq_refl) eq_refl).
  - apply (proj2 (retry_carries_rotated_token sample_dumps always_expired
                    rotation_grants "chat.postMessage" None
                    (set_env_file
                       (ReadOnly (join_lines sample_lines) OSError)
                       sample_world)
                    (set_env_file
                       (ReadOnly (join_lines sample_lines) OSError)
                       sample_world)
                    "xoxe.xoxp-1" expired_payload
                    (mkRotateData (PBool true) (Some "AAA") (Some "r2") None)
                    eq_refl eq_refl eq_refl ltac:(discriminate) eq_refl
                    eq_refl) OSError eq_refl).
Defined.

(** X14. After an expiry answer, a rotation that fails with an exception
    (the rotation endpoint cannot be reached, or its answer is not a JSON
    object) makes [_post] raise that exception: the expiry answer of the
    API call is not returned. *)
Theorem rotation_exception_leaves_post
    (json_dumps : gmap string pyval -> string)
    (api_answers : nat -> Exchange (gmap string pyval))
    (rotate_answers : nat -> Exchange RotateData)
    (endpoint : string) (params : option (gmap string pyval))
    (w w1 : World) (token : string) (data : gmap string pyval) :
  _get_token w = (Returned token, w1) ->
  api_answers (length (sent w1)) = Response (Json (Object data)) ->
  token_expired data = true ->
  refresh_token (_token_state w1) <> "" ->
  forall e,
    match rotate_answers (length (sent w1) + 1) with
    | TransportFailure => e = TransportError
    | Response NotJson => e = JSONDecodeError
    | Response (Json NotObject) => e = AttributeError
    | Response (Json (Object _)) => False
    end ->
    _post json_dumps api_answers rotate_answers endpoint params true w
    = (Raised e,
       add_sent (rotate_request (refresh_token (_token_state w1)))
         (add_sent (post_request token endpoint params) w1)).
Proof.
  intros Hget Hanswer Hexp Hrefresh e He.
  rewrite (post_after_expiry _ _ _ _ _ _ _ _ _ Hget Hanswer Hexp).
  rewrite refresh_token_eq. cbv zeta. cbn [_token_state sent add_sent].
  apply nonempty_true in Hrefresh. rewrite Hrefresh, length_app.
  cbn [length].
  destruct (rotate_answers (length (sent w1) + 1)) as [|[|[|d]]];
    [subst e; reflexivity .. | contradiction].
Qed.

Lemma rotation_exception_leaves_post_witness :
  _post sample_dumps always_expired rotation_unreachable
    "chat.postMessage" None true sample_world
  = (Raised TransportError,
     add_sent (rotate_request "r1")
       (add_sent (post_request "xoxe.xoxp-1" "chat.postMessage" None)
          sample_world)).
Proof.
  apply (rotation_exception_leaves_post sample_dumps always_expired
           rotation_unreachable "chat.postMessage" None
           sample_world sample_world "xoxe.xoxp-1" expired_payload
           eq_refl eq_refl eq_refl ltac:(discriminate) TransportError).
  reflexivity.
Defined.

(** X15. After an expiry answer, a rotation that is answered but does
    not succeed (success flag false, or no new access token) ends the
    call: the expiry answer is returned, the pair and the config file
    are untouched, and the two requests sent are the API call and the
    rotation call. *)
Theorem refused_rotation_returns_expiry_answer
    (json_dumps : gmap string pyval -> string)
    (api_answers : nat -> Exchange (gmap string pyval))
    (rotate_answers : nat -> Exchange RotateData)
    (endpoint : string) (params : option (gmap string pyval))
    (w w1 : World) (token : string) (data : gmap string pyval)
    (d : RotateData) :
  _get_token w = (Returned token, w1) ->
  api_answers (length (sent w1)) = Response (Json (Object data)) ->
  token_expired data = true ->
  refresh_token (_token_state w1) <> "" ->
  rotate_answers (length (sent w1) + 1) = Response (Json (Object d)) ->
  rotation_succeeds d = false ->
  let r := _post json_dumps api_answers rotate_answers
             endpoint params true w in
  fst r = Returned [mkTextContent "text" (json_dumps data)]
  /\ store_unchanged w1 (snd r)
  /\ sent (snd r)
     = sent w1 ++ [post_request token endpoint params;
                   rotate_request (refresh_token (_token_state w1))].
Proof.
  intros Hget Hanswer Hexp Hrefresh Hrot Hok. cbv zeta.
  rewrite (post_after_expiry _ _ _ _ _ _ _ _ _ Hget Hanswer Hexp).
  rewrite refresh_token_eq. cbv zeta. cbn [_token_state sent add_sent].
  apply nonempty_true in Hrefresh. rewrite Hrefresh, length_app.
  cbn [length]. rewrite Hrot. unfold rotation_succeeds in Hok.
  unfold store_unchanged.
  destruct (truthy (rot_ok d)); cbn [andb] in Hok.
  - rewrite Hok. cbn. rewrite <- app_assoc. repeat split.
  - cbn. rewrite <- app_assoc. repeat split.
Qed.

Lemma refused_rotation_returns_expiry_answer_witness :
  fst (_post sample_dumps always_expired rotation_refuses
         "chat.postMessage" None true sample_world)
  = Returned [mkTextContent "text" "{expired}"].
Proof.
  apply (refused_rotation_returns_expiry_answer sample_dumps always_expired
           rotation_refuses "chat.postMessage" None
           sample_world sample_world "xoxe.xoxp-1" expired_payload
           (mkRotateData (PBool false) None None
              (Some "invalid_refresh_token"))
           eq_refl eq_refl eq_refl ltac:(discriminate) eq_refl eq_refl).
Defined.

Lemma params_or_empty_nil : params_or_empty (Some ∅) = params_or_empty None.
Proof.
  unfold params_or_empty, truthy. rewrite bool_decide_eq_true_2; reflexivity.
Qed.

Section SameParams.

Variable json_dumps : gmap string pyval -> string.
Variable api_answers : nat -> Exchange (gmap string pyval).
Variable rotate_answers : nat -> Exchange RotateData.
Variables (endpoint : string) (p p' : option (gmap string pyval)).
Hypothesis same_body : params_or_empty p = params_or_empty p'.

Lemma post_exchange_same_body (w : World) :
  post_exchange api_answers endpoint p w
  = post_exchange api_answers endpoint p' w.
Proof.
  rewrite !post_exchange_eq. unfold post_request. rewrite same_body.
  reflexivity.
Qed.

Lemma get_exchange_same_body (w : World) :
  get_exchange api_answers endpoint p w
  = get_exchange api_answers endpoint p' w.
Proof.
  rewrite !get_exchange_eq. unfold get_request. rewrite same_body.
  reflexivity.
Qed.

Lemma post_same_body (retry : bool) (w : World) :
  _post json_dumps api_answers rotate_answers endpoint p retry w
  = _post json_dumps api_answers rotate_answers endpoint p' retry w.
Proof.
  assert (Hlast : forall w0,
            _post json_dumps api_answers rotate_answers endpoint p false w0
            = _post json_dumps api_answers rotate_answers
                endpoint p' false w0).
  { intros w0. rewrite !post_last_attempt, post_exchange_same_body.
    reflexivity. }
  destruct retry; [|apply Hlast].
  rewrite (post_unfold _ _ _ endpoint p), (post_unfold _ _ _ endpoint p').
  rewrite post_exchange_same_body.
  destruct (post_exchange api_answers endpoint p' w) as [[data|e] w1];
    [|reflexivity].
  destruct (token_expired data && true); [|reflexivity].
  destruct (_refresh_token rotate_answers w1) as [[[|]|e] w2];
    [apply Hlast | reflexivity | reflexivity].
Qed.

Lemma get_same_body (retry : bool) (w : World) :
  _get json_dumps api_answers rotate_answers endpoint p retry w
  = _get json_dumps api_answers rotate_answers endpoint p' retry w.
Proof.
  assert (Hlast : forall w0,
            _get json_dumps api_answers rotate_answers endpoint p false w0
            = _get json_dumps api_answers rotate_answers
                endpoint p' false w0).
  { intros w0. rewrite !get_last_attempt, get_exchange_same_body.
    reflexivity. }
  destruct retry; [|apply Hlast].
  rewrite (get_unfold _ _ _ endpoint p), (get_unfold _ _ _ endpoint p').
  rewrite get_exchange_same_body.
  destruct (get_exchange api_answers endpoint p' w) as [[data|e] w1];
    [|reflexivity].
  destruct (token_expired data && true); [|reflexivity].
  destruct (_refresh_token rotate_answers w1) as [[[|]|e] w2];
    [apply Hlast | reflexivity | reflexivity].
Qed.

End SameParams.

(** X16. A call with an empty parameter dict and a call with no
    parameters at all are the same call: same requests (an empty JSON
    object as body, an empty query string), same result, same world. *)
Theorem empty_params_same_as_none
    (json_dumps : gmap string pyval -> string)
    (api_answers : nat -> Exchange (gmap string pyval))
    (rotate_answers : nat -> Exchange RotateData)
    (endpoint : string) (retry : bool) (w : World) :
  _post json_dumps api_answers rotate_answers endpoint (Some ∅) retry w
  = _post json_dumps api_answers rotate_answers endpoint None retry w
  /\ _get json_dumps api_answers rotate_answers endpoint (Some ∅) retry w
     = _get json_dumps api_answers rotate_answers endpoint None retry w
  /\ (forall token,
        post_request token endpoint (Some ∅)
        = post_request token endpoint None).
Proof.
  split; [|split].
  - apply post_same_body. exact params_or_empty_nil.
  - apply get_same_body. exact params_or_empty_nil.
  - intros token. unfold post_request. rewrite params_or_empty_nil.
    reflexivity.
Qed.

Lemma only_sends_refl (P : Request -> Prop) (w w' : World) :
  sent w' = sent w -> only_sends P w w'.
Proof.
  intros H. exists []. rewrite app_nil_r. split; [exact H | constructor].
Qed.

Lemma only_sends_one (P : Request -> Prop) (w w' : World) (r : Request) :
  P r -> sent w' = sent w ++ [r] -> only_sends P w w'.
Proof.
  intros HP H. exists [r]. split; [exact H|]. constructor; [exact HP|].
  constructor.
Qed.

Lemma only_sends_trans (P : Request -> Prop) (w w1 w2 : World) :
  only_sends P w w1 -> only_sends P w1 w2 -> only_sends P w w2.
Proof.
  intros (l1 & E1 & F1) (l2 & E2 & F2). exists (l1 ++ l2).
  split; [rewrite E2, E1; symmetry; apply app_assoc|].
  apply Forall_app. split; assumption.
Qed.

Section OnlySends.

Variable json_dumps : gmap string pyval -> string.
Variable api_answers : nat -> Exchange (gmap string pyval).
Variable rotate_answers : nat -> Exchange RotateData.
Variable P : Request -> Prop.
Hypothesis rotation_allowed : forall refresh, P (rotate_request refresh).

Lemma api_outcome_only_sends (req : Request) (w : World) :
  P req -> only_sends P w (snd (api_outcome api_answers req w)).
Proof.
  intros HP. apply (only_sends_one P _ _ req HP). unfold api_outcome.
  destruct (api_answers (length (sent w))) as [|[|[|d]]]; reflexivity.
Qed.

Lemma refresh_token_only_sends (w : World) :
  only_sends P w (snd (_refresh_token rotate_answers w)).
Proof.
  rewrite refresh_token_eq. cbv zeta.
  destruct (nonempty (refresh_token (_token_state w)));
    [|apply only_sends_refl; reflexivity].
  apply (only_sends_one P _ _
           (rotate_request (refresh_token (_token_state w)))
           (rotation_allowed (refresh_token (_token_state w)))).
  destruct (rotate_answers (length (sent w))) as [|[|[|d]]];
    try reflexivity.
  destruct (truthy (rot_ok d)); [|reflexivity].
  destruct (nonempty (default "" (rot_token d))); [|reflexivity].
  rewrite (proj1 (rotated_frame _ _ _)). reflexivity.
Qed.

Lemma post_exchange_only_sends (endpoint : string)
    (params : option (gmap string pyval)) (w : World) :
  (forall token, P (post_request token endpoint params)) ->
  only_sends P w (snd (post_exchange api_answers endpoint params w)).
Proof.
  intros HP. rewrite post_exchange_eq. pose proof (get_token_sent w) as Hs.
  destruct (_get_token w) as [[token|e] w1]; cbn [snd] in *.
  - apply (only_sends_trans P w w1); [apply only_sends_refl; exact Hs|].
    apply api_outcome_only_sends. apply HP.
  - apply only_sends_refl. exact Hs.
Qed.

Lemma get_exchange_only_sends (endpoint : string)
    (params : option (gmap string pyval)) (w : World) :
  (forall token, P (get_request token endpoint params)) ->
  only_sends P w (snd (get_exchange api_answers endpoint params w)).
Proof.
  intros HP. rewrite get_exchange_eq. pose proof (get_token_sent w) as Hs.
  destruct (_get_token w) as [[token|e] w1]; cbn [snd] in *.
  - apply (only_sends_trans P w w1); [apply only_sends_refl; exact Hs|].
    apply api_outcome_only_sends. apply HP.
  - apply only_sends_refl. exact Hs.
Qed.

Lemma post_only_sends (endpoint : string)
    (params : option (gmap string pyval)) (retry : bool) (w : World) :
  (forall token, P (post_request token endpoint params)) ->
  only_sends P w
    (snd (_post json_dumps api_answers rotate_answers
            endpoint params retry w)).
Proof.
  intros HP.
  funelim (_post json_dumps api_answers rotate_answers
             endpoint params retry w);
    match goal with
    | H : post_exchange _ _ _ ?w0 = _ |- _ =>
        pose proof (post_exchange_only_sends endpoint params w0 HP) as Hx;
        rewrite H in Hx; cbn [snd] in Hx
    end;
    try match goal with
        | H : _refresh_token _ ?w0 = _ |- _ =>
            pose proof (refresh_token_only_sends w0) as Hr;
            rewrite H in Hr; cbn [snd] in Hr;
            pose proof (only_sends_trans P _ _ _ Hx Hr) as Hxr
        end;
    cbn [snd]; try assumption.
  eapply only_sends_trans; [exact Hxr|]. auto.
Qed.

Lemma get_only_sends (endpoint : string)
    (params : option (gmap string pyval)) (retry : bool) (w : World) :
  (forall token, P (get_request token endpoint params)) ->
  only_sends P w
    (snd (_get json_dumps api_answers rotate_answers
            endpoint params retry w)).
Proof.
  intros HP.
  funelim (_get json_dumps api_answers rotate_answers
             endpoint params retry w);
    match goal with
    | H : get_exchange _ _ _ ?w0 = _ |- _ =>
        pose proof (get_exchange_only_sends endpoint params w0 HP) as Hx;
        rewrite H in Hx; cbn [snd] in Hx
    end;
    try match goal with
        | H : _refresh_token _ ?w0 = _ |- _ =>
            pose proof (refresh_token_only_sends w0) as Hr;
            rewrite H in Hr; cbn [snd] in Hr;
            pose proof (only_sends_trans P _ _ _ Hx Hr) as Hxr
        end;
    cbn [snd]; try assumption.
  eapply only_sends_trans; [exact Hxr|]. auto.
Qed.

End OnlySends.

(** X17. Every request a call of [_post] sends is either a JSON POST to
    [SLACK_API_BASE/<endpoint>] with the bearer and content-type headers
    and the given parameters as body, or a rotation request; likewise
    every request of [_get] is a GET of that URL with the bearer header
    and the parameters as query, or a rotation request.  A retry thus
    repeats the endpoint and the parameters; at most the token
    differs. *)
Theorem dispatch_sends_only_its_call
    (json_dumps : gmap string pyval -> string)
    (api_answers : nat -> Exchange (gmap string pyval))
    (rotate_answers : nat -> Exchange RotateData)
    (endpoint : string) (params : option (gmap string pyval))
    (retry : bool) (w : World) :
  only_sends (post_call_of endpoint params) w
    (snd (_post json_dumps api_answers rotate_answers
            endpoint params retry w))
  /\ only_sends (get_call_of endpoint params) w
       (snd (_get json_dumps api_answers rotate_answers
               endpoint params retry w)).
Proof.
  split.
  - apply post_only_sends.
    + intros refresh. right. exists refresh. reflexivity.
    + intros token. left. exists token. reflexivity.
  - apply get_only_sends.
    + intros refresh. right. exists refresh. reflexivity.
    + intros token. left. exists token. reflexivity.
Qed.

(** ** Further properties: the tool wrappers *)

Lemma no_empty_value_empty (required : list string) :
  no_empty_value required ∅.
Proof. intros k H. rewrite lookup_empty in H. discriminate. Qed.

Lemma no_empty_value_insert (required : list string) (k : string)
    (v : pyval) (d : gmap string pyval) :
  (v = PStr "" -> In k required) ->
  no_empty_value required d ->
  no_empty_value required (<[k := v]> d).
Proof.
  intros Hv Hd k' Hl. destruct (decide (k = k')) as [->|Hne].
  - rewrite lookup_insert_eq in Hl. injection Hl as ->. apply Hv. reflexivity.
  - rewrite lookup_insert_ne in Hl by exact Hne. apply Hd. exact Hl.
Qed.

Lemma no_empty_value_singleton (required : list string) (k : string)
    (v : pyval) :
  (v = PStr "" -> In k required) ->
  no_empty_value required ({[ k := v ]} : gmap string pyval).
Proof.
  intros Hv. rewrite <- insert_empty.
  apply no_empty_value_insert; [exact Hv | apply no_empty_value_empty].
Qed.

Lemma no_empty_value_body (required : list string)
    (d : gmap string pyval) :
  no_empty_value required d ->
  no_empty_value required (params_or_empty (Some d)).
Proof.
  intros H. unfold params_or_empty.
  destruct (truthy (PDict d)); [exact H | apply no_empty_value_empty].
Qed.

(** Splits a goal [no_empty_value] over a dict built by item assignments
    and conditionals, and closes the side conditions on the values. *)
Ltac no_empty_values :=
  repeat match goal with
         | |- no_empty_value _ (if nonempty ?s then _ else _) =>
             let E := fresh "E" in destruct (nonempty s) eqn:E
         | |- no_empty_value _ (<[_ := _]> _) => apply no_empty_value_insert
         | |- no_empty_value _ {[ _ := _ ]} => apply no_empty_value_singleton
         | |- PStr ?s = PStr "" -> _ =>
             let H := fresh in
             intros H; injection H as H; try subst s
         | |- _ = PStr "" -> _ =>
             let H := fresh in intros H; discriminate H
         end;
  try match goal with
      | E : nonempty "" = true |- _ => discriminate E
      end;
  try (cbn [In]; tauto).

Lemma list_conversations_no_empty (types : string) (limit : Z)
    (cursor : string) (exclude_archived : bool) :
  no_empty_value ["types"]
    (slack_list_conversations_params types limit cursor exclude_archived).
Proof. unfold slack_list_conversations_params. cbv zeta. no_empty_values. Qed.

Lemma conversations_history_no_empty (channel : string) (limit : Z)
    (cursor oldest latest : string) (inclusive : bool) :
  no_empty_value ["channel"]
    (slack_conversations_history_params channel limit cursor oldest latest
       inclusive).
Proof.
  unfold slack_conversations_history_params. cbv zeta. no_empty_values.
Qed.

Lemma conversations_replies_no_empty (channel ts : string) (limit : Z)
    (cursor oldest latest : string) (inclusive : bool) :
  no_empty_value ["channel"; "ts"]
    (slack_conversations_replies_params channel ts limit cursor oldest
       latest inclusive).
Proof.
  unfold slack_conversations_replies_params. cbv zeta. no_empty_values.
Qed.

Lemma conversations_members_no_empty (channel : string) (limit : Z)
    (cursor : string) :
  no_empty_value ["channel"]
    (slack_conversations_members_params channel limit cursor).
Proof.
  unfold slack_conversations_members_params. cbv zeta. no_empty_values.
Qed.

Lemma conversations_open_no_empty (users channel : string)
    (return_im : bool) :
  no_empty_value [] (slack_conversations_open_params users channel return_im).
Proof.
  unfold slack_conversations_open_params. cbv zeta. no_empty_values.
Qed.

Lemma chat_post_message_no_empty (channel text thread_ts : string)
    (reply_broadcast unfurl_links unfurl_media : bool) :
  no_empty_value ["channel"; "text"]
    (slack_chat_post_message_params channel text thread_ts reply_broadcast
       unfurl_links unfurl_media).
Proof.
  unfold slack_chat_post_message_params. cbv zeta. no_empty_values.
Qed.

Lemma search_messages_no_empty (query : string) (count : Z)
    (cursor sort sort_dir : string) :
  no_empty_value ["query"; "sort"; "sort_dir"]
    (slack_search_messages_params query count cursor sort sort_dir).
Proof. unfold slack_search_messages_params. cbv zeta. no_empty_values. Qed.

Lemma users_list_no_empty (limit : Z) (cursor : string)
    (include_locale : bool) :
  no_empty_value [] (slack_users_list_params limit cursor include_locale).
Proof. unfold slack_users_list_params. cbv zeta. no_empty_values. Qed.

Lemma reminders_add_no_empty (text time user : string) :
  no_empty_value ["text"; "time"] (slack_reminders_add_params text time user).
Proof. unfold slack_reminders_add_params. cbv zeta. no_empty_values. Qed.

Lemma files_list_no_empty (channel user types : string) (count page : Z) :
  no_empty_value [] (slack_files_list_params channel user types count page).
Proof. unfold slack_files_list_params. cbv zeta. no_empty_values. Qed.

Section ToolRequests.

Variable json_dumps : gmap string pyval -> string.
Variable api_answers : nat -> Exchange (gmap string pyval).
Variable rotate_answers : nat -> Exchange RotateData.

Lemma post_default_body (required : list string) (endpoint : string)
    (d : gmap string pyval) (w : World) :
  no_empty_value required d ->
  only_sends (posts_body (no_empty_value required)) w
    (snd (post_default json_dumps api_answers rotate_answers
            endpoint (Some d) w)).
Proof.
  intros Hd. unfold post_default. apply post_only_sends.
  - intros refresh. right. exists refresh. reflexivity.
  - intros token. left. unfold post_request. eexists _, _, _.
    split; [reflexivity|]. apply no_empty_value_body. exact Hd.
Qed.

End ToolRequests.

(** X18. No tool sends an optional argument as an empty string: in every
    API request a tool makes, a parameter whose value is the empty string
    can only be one of the tool's own mandatory or defaulted text
    arguments (listed per tool), never [cursor], [oldest], [latest],
    [users], [channel], [thread_ts], [user] or [types] left empty. *)
Theorem tools_omit_empty_optionals
    (json_dumps : gmap string pyval -> string)
    (api_answers : nat -> Exchange (gmap string pyval))
    (rotate_answers : nat -> Exchange RotateData) (w : World) :
  (forall types limit cursor exclude_archived,
     only_sends (posts_body (no_empty_value ["types"])) w
       (snd (slack_list_conversations json_dumps api_answers rotate_answers
               types limit cursor exclude_archived w)))
  /\ (forall channel limit cursor oldest latest inclusive,
        only_sends (posts_body (no_empty_value ["channel"])) w
          (snd (slack_conversations_history json_dumps api_answers
                  rotate_answers channel limit cursor oldest latest
                  inclusive w)))
  /\ (forall channel ts limit cursor oldest latest inclusive,
        only_sends (posts_body (no_empty_value ["channel"; "ts"])) w
          (snd (slack_conversations_replies json_dumps api_answers
                  rotate_answers channel ts limit cursor oldest latest
                  inclusive w)))
  /\ (forall channel limit cursor,
        only_sends (posts_body (no_empty_value ["channel"])) w
          (snd (slack_conversations_members json_dumps api_answers
                  rotate_answers channel limit cursor w)))
  /\ (forall users channel return_im,
        only_sends (posts_body (no_empty_value [])) w
          (snd (slack_conversations_open json_dumps api_answers
                  rotate_answers users channel return_im w)))
  /\ (forall channel text thread_ts reply_broadcast unfurl_links
             unfurl_media,
        only_sends (posts_body (no_empty_value ["channel"; "text"])) w
          (snd (slack_chat_post_message json_dumps api_answers
                  rotate_answers channel text thread_ts reply_broadcast
                  unfurl_links unfurl_media w)))
  /\ (forall query count cursor sort sort_dir,
        only_sends
          (posts_body (no_empty_value ["query"; "sort"; "sort_dir"])) w
          (snd (slack_search_messages json_dumps api_answers rotate_answers
                  query count cursor sort sort_dir w)))
  /\ (forall limit cursor include_locale,
        only_sends (posts_body (no_empty_value [])) w
          (snd (slack_users_list json_dumps api_answers rotate_answers
                  limit cursor include_locale w)))
  /\ (forall text time user,
        only_sends (posts_body (no_empty_value ["text"; "time"])) w
          (snd (slack_reminders_add json_dumps api_answers rotate_answers
                  text time user w)))
  /\ (forall channel user types count page,
        only_sends (posts_body (no_empty_value [])) w
          (snd (slack_files_list json_dumps api_answers rotate_answers
                  channel user types count page w))).
Proof.
  repeat split; intros; apply post_default_body.
  - apply list_conversations_no_empty.
  - apply conversations_history_no_empty.
  - apply conversations_replies_no_empty.
  - apply conversations_members_no_empty.
  - apply conversations_open_no_empty.
  - apply chat_post_message_no_empty.
  - apply search_messages_no_empty.
  - apply users_list_no_empty.
  - apply reminders_add_no_empty.
  - apply files_list_no_empty.
Qed.

Lemma chat_post_message_without_thread (channel text : string)
    (reply_broadcast unfurl_links unfurl_media : bool) :
  slack_chat_post_message_params channel text "" reply_broadcast
    unfurl_links unfurl_media
  = slack_chat_post_message_params channel text "" false
      unfurl_links unfurl_media.
Proof. reflexivity. Qed.

(** X19. [slack_chat_post_message] sends [reply_broadcast] only together
    with [thread_ts]: without a thread (argument left out or empty) the
    call is the same whatever [reply_broadcast] is, and the body has
    neither key; with a thread the body has both, as given. *)
Theorem reply_broadcast_needs_thread
    (json_dumps : gmap string pyval -> string)
    (api_answers : nat -> Exchange (gmap string pyval))
    (rotate_answers : nat -> Exchange RotateData)
    (channel text : string) (thread_ts : option string)
    (reply_broadcast reply_broadcast' unfurl_links unfurl_media
       : option bool) :
  let body ts rb :=
    slack_chat_post_message_params channel text (default "" ts)
      (default false rb) (default true unfurl_links)
      (default true unfurl_media) in
  (default "" thread_ts = "" ->
     slack_chat_post_message json_dumps api_answers rotate_answers
       channel text thread_ts reply_broadcast unfurl_links unfurl_media
     = slack_chat_post_message json_dumps api_answers rotate_answers
         channel text thread_ts reply_broadcast' unfurl_links unfurl_media
     /\ body thread_ts reply_broadcast !! "reply_broadcast" = None
     /\ body thread_ts reply_broadcast !! "thread_ts" = None)
  /\ (default "" thread_ts <> "" ->
      body thread_ts reply_broadcast !! "reply_broadcast"
      = Some (PBool (default false reply_broadcast))
      /\ body thread_ts reply_broadcast !! "thread_ts"
         = Some (PStr (default "" thread_ts))).
Proof.
  cbv zeta. split.
  - intros He. unfold slack_chat_post_message. rewrite He.
    rewrite (chat_post_message_without_thread channel text
               (default false reply_broadcast)).
    rewrite (chat_post_message_without_thread channel text
               (default false reply_broadcast')).
    split; [reflexivity|]. split; reflexivity.
  - intros Hne. apply nonempty_true in Hne.
    unfold slack_chat_post_message_params. cbv zeta. rewrite Hne.
    split.
    + apply lookup_insert_eq.
    + rewrite lookup_insert_ne by discriminate. apply lookup_insert_eq.
Qed.

Lemma reply_broadcast_needs_thread_witness :
  slack_chat_post_message_params "C1" "hi" "" true true true
    !! "reply_broadcast" = None
  /\ slack_chat_post_message_params "C1" "hi" "171.5" true true true
       !! "reply_broadcast" = Some (PBool true).
Proof.
  split.
  - apply (proj1 (reply_broadcast_needs_thread sample_dumps always_ok
                    rotation_grants "C1" "hi" None (Some true) None
                    None None) eq_refl).
  - apply (proj2 (reply_broadcast_needs_thread sample_dumps always_ok
                    rotation_grants "C1" "hi" (Some "171.5") (Some true)
                    None None None) ltac:(discriminate)).
Defined.
